(** * pyflagser: the ingestion layer of [flagser]

    A shallow embedding of [pyflagser/flagser.py].  The function [flagser]
    reads a flag matrix (a dense [numpy.ndarray] or a [scipy.sparse]
    matrix), builds the vertex-weight array and the edge array, normalises
    three scalar arguments and calls the native engine [compute_homology].

    Python objects live in a store and are passed by reference; numpy
    allocates fresh arrays, and the one in-place assignment of the function
    is a store update.  Exceptions and [print] are effects of the [Py]
    monad.  The native engine and the list [implemented_filtrations] come
    from the extension module [flagser_pybind] and are parameters. *)

From Stdlib Require Import ZArith.
From stdpp Require Import base tactics option list strings.


(** ** Python values that the function inspects *)

(** Element types of the arrays. *)
Inductive np_dtype := dt_bool | dt_int64 | dt_float64.

(** Class objects named in the source. *)
Inductive pyclass := cls_bool | cls_ndarray | cls_spmatrix.

(** The operands of the identity tests [type(flag_matrix) is np.ndarray]
    and [flag_matrix.dtype is not bool]: a class object, or an instance of
    [numpy.dtype].  The attribute [dtype] of an array or of a sparse matrix
    is always an instance of [numpy.dtype]. *)
Inductive pyvalue :=
| PyClass (c : pyclass)
| PyDtype (d : np_dtype).

Definition pyclass_eqb (a b : pyclass) : bool :=
  match a, b with
  | cls_bool, cls_bool | cls_ndarray, cls_ndarray
  | cls_spmatrix, cls_spmatrix => true
  | _, _ => false
  end.

Definition np_dtype_eqb (a b : np_dtype) : bool :=
  match a, b with
  | dt_bool, dt_bool | dt_int64, dt_int64 | dt_float64, dt_float64 => true
  | _, _ => false
  end.

(** [a is b]: object identity.  Class objects and the built-in dtype
    instances are singletons; an instance of [numpy.dtype] is never a class
    object. *)
Definition py_is (a b : pyvalue) : bool :=
  match a, b with
  | PyClass c, PyClass c' => pyclass_eqb c c'
  | PyDtype d, PyDtype d' => np_dtype_eqb d d'
  | _, _ => false
  end.

(** [max_dimension] is an [int] or [np.inf]. *)
Inductive pydim := Dim (z : Z) | Inf.

(** [max_dimension == np.inf] *)
Definition eq_inf (d : pydim) : bool :=
  match d with Inf => true | Dim _ => false end.

(** Truth value of an [int]: [not approximation]. *)
Definition py_not (z : Z) : bool := (z =? 0)%Z.

(** Exceptions raised by the numpy operations the function uses, and the
    fault of following a reference that is not in the store. *)
Inductive exn := ValueError | IndexError | AttributeError | DanglingReference.

(** The scalars held by a matrix: the dtype tag, the value [np.zeros]
    fills with, and the addition scipy sums duplicate entries with. *)
Class Scalar (V : Type) := {
  dtype_of : np_dtype;
  np_zero : V;
  np_add : V → V → V
}.

(** ** numpy operations on array contents *)

Section Arrays.
Context {A : Type}.

(** A [flatiter] (the attribute [flat]) or a one-dimensional array. *)
Inductive indexable := Flat (l : list A) | Arr (l : list A).

(** Selection by a boolean mask, position by position; it stops at the end
    of the shorter list. *)
Fixpoint select (l : list A) (mask : list bool) : list A :=
  match l, mask with
  | x :: l', b :: mask' => if b then x :: select l' mask' else select l' mask'
  | _, _ => []
  end.

(** [x[mask]] with a boolean array [mask].  A [flatiter] refuses a mask
    longer than itself ("too many boolean indices") and reads a shorter
    mask against its first elements, as in the numpy releases that still
    have [np.bool], which the function uses; an array requires equal
    lengths. *)
Definition getitem_mask (x : indexable) (mask : list bool) : exn + list A :=
  match x with
  | Flat l =>
      if length l <? length mask then inl ValueError else inr (select l mask)
  | Arr l =>
      if length l =? length mask then inr (select l mask) else inl IndexError
  end.

(** [np.vstack([r0, r1, r2]).T]: the rows must have one length. *)
Definition vstack3_T {B C : Type} (r0 : list A) (r1 : list B) (r2 : list C)
  : exn + list (A * B * C) :=
  if (length r0 =? length r1) && (length r1 =? length r2)
  then inr (zip (zip r0 r1) r2) else inl ValueError.

(** [np.vstack([r0, r1]).T[:, :2]] *)
Definition vstack2_T {B : Type} (r0 : list A) (r1 : list B)
  : exn + list (A * B) :=
  if length r0 =? length r1 then inr (zip r0 r1) else inl ValueError.

(** [a.flat] of a two-dimensional array given by its rows. *)
Definition flat (rows : list (list A)) : list A := concat rows.

End Arrays.

(** [np.indices((r, c))[0]] and [np.indices((r, c))[1]] *)
Definition np_indices_0 (r c : nat) : list (list nat) :=
  (λ i, (λ _, i) <$> seq 0 c) <$> seq 0 r.

Definition np_indices_1 (r c : nat) : list (list nat) :=
  (λ _, seq 0 c) <$> seq 0 r.

(** [np.eye(n, dtype=bool)] *)
Definition np_eye (n : nat) : list (list bool) :=
  (λ i, (λ j, i =? j) <$> seq 0 n) <$> seq 0 n.

(** [np.logical_not] *)
Definition np_logical_not (l : list bool) : list bool := negb <$> l.

(** [np.ones(k, dtype=np.bool)] *)
Definition np_ones (k : nat) : list bool := replicate k true.

(** [np.arange(k)] *)
Definition np_arange (k : nat) : list nat := seq 0 k.

(** [row == column] on two arrays of one length. *)
Definition np_equal (a b : list nat) : list bool :=
  zip_with Nat.eqb a b.

(** [mask[idx] = False] with an array of positions. *)
Definition setitem_false (mask : list bool) (idx : list nat) : list bool :=
  foldl (λ m i, <[i := false]> m) mask idx.

(** ** The store, the engine and the [Py] monad *)

Definition loc := nat.

(** The array handed to the engine as [edges]: three columns (source,
    target, weight) or two (source, target).  [np.vstack] stores the
    columns with one common dtype; the model keeps the two index columns as
    numbers and the weight column as the scalar of the matrix. *)
Inductive edge_array (V : Type) :=
| Triples (l : list (nat * nat * V))
| Pairs (l : list (nat * nat)).
Arguments Triples {V} l.
Arguments Pairs {V} l.

(** Objects of the store.  An [Ndarray] is a two-dimensional array with its
    shape and its buffer in C order.  An [SpMatrix] is a [scipy.sparse]
    matrix as [tocoo()] shows it: the shape and the stored entries
    [(row[k], col[k], data[k])]; scipy keeps the three arrays at one length,
    so they are kept zipped. *)
Inductive object (V : Type) :=
| Ndarray (nrows ncols : nat) (buf : list V)
| SpMatrix (nrows ncols : nat) (coo : list (nat * nat * V))
| Vector (buf : list V)
| BoolArray (buf : list bool)
| EdgeArray (e : edge_array V).
Arguments Ndarray {V} nrows ncols buf.
Arguments SpMatrix {V} nrows ncols coo.
Arguments Vector {V} buf.
Arguments BoolArray {V} buf.
Arguments EdgeArray {V} e.

(** One call of [compute_homology] with its eight arguments. *)
Record engine_call (V : Type) := EngineCall {
  c_vertices : list V;
  c_edges : edge_array V;
  c_min_dimension : Z;
  c_max_dimension : pydim;
  c_directed : bool;
  c_coeff : Z;
  c_approximation : Z;
  c_filtration : string
}.
Arguments EngineCall {V}.
Arguments c_vertices {V}.
Arguments c_edges {V}.
Arguments c_min_dimension {V}.
Arguments c_max_dimension {V}.
Arguments c_directed {V}.
Arguments c_coeff {V}.
Arguments c_approximation {V}.
Arguments c_filtration {V}.

(** What a call can change: the store, the text printed, and the calls
    made to the engine. *)
Record world (V : Type) := World {
  heap : list (object V);
  stdout : list string;
  engine_log : list (engine_call V)
}.
Arguments World {V}.
Arguments heap {V}.
Arguments stdout {V}.
Arguments engine_log {V}.

Definition Py (V A : Type) : Type := world V → (exn + A) * world V.

#[global] Instance py_ret {V} : MRet (Py V) := λ A a w, (inr a, w).

#[global] Instance py_bind {V} : MBind (Py V) := λ A B k m w,
  match m w with
  | (inr a, w') => k a w'
  | (inl e, w') => (inl e, w')
  end.

(** A numpy operation that returns or raises, without touching the world. *)
Definition lift {V A} (r : exn + A) : Py V A := λ w, (r, w).

Section Flagser.
Context {V : Type} `{Scalar V}.

(** A persistence diagram, as the engine returns it. *)
Variable diagram : Type.

(** The object whose four getters [flagser] reads. *)
Record homology := Homology {
  get_persistence_diagram : list diagram;
  get_cell_count : list Z;
  get_betti_numbers : list Z;
  get_euler_characteristic : Z
}.

(** [flagser_pybind.compute_homology] and
    [flagser_pybind.implemented_filtrations]. *)
Variable compute_homology :
  list V → edge_array V → Z → pydim → bool → Z → Z → string → list homology.
Variable implemented_filtrations : list string.

(** The dictionary [out] with its four keys. *)
Record out := Out {
  dgms : list diagram;
  cell_count : list Z;
  betti : list Z;
  euler : Z
}.

(** *** The store *)

Definition deref (l : loc) : Py V (object V) := λ w,
  match heap w !! l with
  | Some o => (inr o, w)
  | None => (inl DanglingReference, w)
  end.

(** A fresh object goes to the end of the store. *)
Definition alloc (o : object V) : Py V loc := λ w,
  (inr (length (heap w)),
   World (heap w ++ [o]) (stdout w) (engine_log w)).

(** In-place update of the object at [l]. *)
Definition assign (l : loc) (o : object V) : Py V () := λ w,
  (inr (), World (<[l := o]> (heap w)) (stdout w) (engine_log w)).

Definition print (s : string) : Py V () := λ w,
  (inr (), World (heap w) (stdout w ++ [s]) (engine_log w)).

(** The call of the engine: it is recorded and its result returned. *)
Definition call_engine (c : engine_call V) : Py V (list homology) := λ w,
  (inr (compute_homology (c_vertices c) (c_edges c) (c_min_dimension c)
          (c_max_dimension c) (c_directed c) (c_coeff c)
          (c_approximation c) (c_filtration c)),
   World (heap w) (stdout w) (engine_log w ++ [c])).

(** *** Attributes and methods of the objects *)

(** [type(o)]: every array is an [np.ndarray]. *)
Definition type_of (o : object V) : pyvalue :=
  match o with
  | SpMatrix _ _ _ => PyClass cls_spmatrix
  | _ => PyClass cls_ndarray
  end.

(** [o.dtype] *)
Definition dtype (o : object V) : pyvalue :=
  match o with
  | BoolArray _ => PyDtype dt_bool
  | _ => PyDtype dtype_of
  end.

(** [o.shape] of a matrix. *)
Definition shape (o : object V) : Py V (nat * nat) :=
  match o with
  | Ndarray r c _ | SpMatrix r c _ => mret (r, c)
  | _ => lift (inl AttributeError)
  end.

(** [o.flat] of a dense matrix: its buffer. *)
Definition flat_of (o : object V) : Py V (list V) :=
  match o with
  | Ndarray _ _ buf => mret buf
  | _ => lift (inl AttributeError)
  end.

(** [o.tocoo()]: the stored entries of a sparse matrix. *)
Definition tocoo (o : object V) : Py V (list (nat * nat * V)) :=
  match o with
  | SpMatrix _ _ coo => mret coo
  | _ => lift (inl AttributeError)
  end.

(** scipy adds up the entries stored at one position. *)
Definition sum_duplicates (vs : list V) : V :=
  match vs with
  | [] => np_zero
  | v :: vs' => foldl np_add v vs'
  end.

(** The values stored at position [(i, j)] of a sparse matrix. *)
Definition stored_at (coo : list (nat * nat * V)) (i j : nat) : list V :=
  (filter (λ e, e.1.1 = i ∧ e.1.2 = j) coo).*2.

(** [o.diagonal()]: [min r c] entries; entry [i] of a dense matrix is the
    cell [i * c + i] of the buffer, entry [i] of a sparse matrix is the sum
    of what is stored at [(i, i)], zero when nothing is. *)
Definition diagonal (o : object V) : Py V (list V) :=
  match o with
  | Ndarray r c buf =>
      mret ((λ i, nth (i * c + i) buf np_zero) <$> seq 0 (r `min` c))
  | SpMatrix r c coo =>
      mret ((λ i, sum_duplicates (stored_at coo i i)) <$> seq 0 (r `min` c))
  | _ => lift (inl ValueError)
  end.

(** [v.shape[0]] of a one-dimensional array. *)
Definition shape_0 (l : loc) : Py V nat :=
  o ← deref l;
  match o with
  | Vector buf => mret (length buf)
  | BoolArray buf => mret (length buf)
  | _ => lift (inl AttributeError)
  end.

Definition read_bools (l : loc) : Py V (list bool) :=
  o ← deref l;
  match o with
  | BoolArray buf => mret buf
  | _ => lift (inl AttributeError)
  end.

Definition read_vector (l : loc) : Py V (list V) :=
  o ← deref l;
  match o with
  | Vector buf => mret buf
  | _ => lift (inl AttributeError)
  end.

Definition read_edges (l : loc) : Py V (edge_array V) :=
  o ← deref l;
  match o with
  | EdgeArray e => mret e
  | _ => lift (inl AttributeError)
  end.

(** [homology[0]] *)
Definition getitem_0 (l : list homology) : exn + homology :=
  match l with
  | h :: _ => inr h
  | [] => inl IndexError
  end.

(** [repr] of a list of names: ['a', 'b'].  The names of filtrations are
    made of letters, digits and underscores, which [repr] does not
    escape. *)
Definition py_repr_list (l : list string) : string :=
  ("[" +:+ String.concat ", " ((λ s, "'" +:+ s +:+ "'") <$> l) +:+ "]")%string.

(** *** The function *)

Definition flagser (flag_matrix : loc) (min_dimension : Z)
    (max_dimension : pydim) (directed : bool) (filtration : string)
    (coeff : Z) (approximation : Z) : Py V out :=
  fm ← deref flag_matrix;
  (* vertices = np.asarray(flag_matrix.diagonal()).copy() *)
  d ← diagonal fm;
  vertices ← alloc (Vector d);
  (* if not approximation: approximation = -1 *)
  let approximation := if py_not approximation then (-1)%Z else approximation in
  '(row, column, data, mask_off_diag) ←
    (if py_is (type_of fm) (PyClass cls_ndarray) then
       sh ← shape fm;
       let row := Flat (flat (np_indices_0 sh.1 sh.2)) in
       let column := Flat (flat (np_indices_1 sh.1 sh.2)) in
       data ← flat_of fm;
       n ← shape_0 vertices;
       mask_off_diag ← alloc (BoolArray (np_logical_not (flat (np_eye n))));
       mret (row, column, Flat data, mask_off_diag)
     else
       coo ← tocoo fm;
       let row := coo.*1.*1 in
       let column := coo.*1.*2 in
       let data := coo.*2 in
       mask_off_diag ← alloc (BoolArray (np_ones (length row)));
       (* mask_off_diag[np.arange(row.shape[0])[row == column]] = False *)
       idx ← lift (getitem_mask (Arr (np_arange (length row)))
                     (np_equal row column));
       m ← read_bools mask_off_diag;
       assign mask_off_diag (BoolArray (setitem_false m idx));;
       mret (Arr row, Arr column, Arr data, mask_off_diag));
  m ← read_bools mask_off_diag;
  edges ←
    (if negb (py_is (dtype fm) (PyClass cls_bool)) then
       r ← lift (getitem_mask row m);
       c ← lift (getitem_mask column m);
       d ← lift (getitem_mask data m);
       e ← lift (vstack3_T r c d);
       alloc (EdgeArray (Triples e))
     else
       r ← lift (getitem_mask row m);
       c ← lift (getitem_mask column m);
       e ← lift (vstack2_T r c);
       alloc (EdgeArray (Pairs e)));
  (* if max_dimension == np.inf: _max_dimension = -1
     else: _max_dimension = max_dimension *)
  let _max_dimension :=
    if eq_inf max_dimension then Dim (-1) else max_dimension in
  filtration ←
    (if bool_decide (filtration ∈ implemented_filtrations) then
       mret filtration
     else
       print ("Unrecognized " +:+ filtration +:+ " filtration, using max");;
       print ("Available algorithms : " +:+
              py_repr_list implemented_filtrations);;
       mret "max"%string);
  v ← read_vector vertices;
  e ← read_edges edges;
  homology ← call_engine
    (EngineCall v e min_dimension _max_dimension directed coeff
       approximation filtration);
  h ← lift (getitem_0 homology);
  let pd := get_persistence_diagram h in
  mret (Out (omap (λ i, pd !! i) (seq 0 (length pd)))
          (get_cell_count h) (get_betti_numbers h)
          (get_euler_characteristic h)).

(** *** What the function computes from a matrix

    The definitions below name the arrays the function builds; the lemma
    [flagser_run] shows that they are what [flagser] allocates and hands
    over. *)

(** The buffer of a dense matrix has one cell per position. *)
Definition well_formed (o : object V) : Prop :=
  match o with
  | Ndarray r c buf => length buf = r * c
  | SpMatrix _ _ _ => True
  | _ => False
  end.

Definition shape_of (o : object V) : nat * nat :=
  match o with
  | Ndarray r c _ | SpMatrix r c _ => (r, c)
  | _ => (0, 0)
  end.

Definition vertices_of (o : object V) : list V :=
  match o with
  | Ndarray r c buf => (λ i, nth (i * c + i) buf np_zero) <$> seq 0 (r `min` c)
  | SpMatrix r c coo =>
      (λ i, sum_duplicates (stored_at coo i i)) <$> seq 0 (r `min` c)
  | _ => []
  end.

Definition mask_of (o : object V) : list bool :=
  match o with
  | Ndarray r c _ => np_logical_not (flat (np_eye (r `min` c)))
  | SpMatrix _ _ coo => (λ e, negb (e.1.1 =? e.1.2)) <$> coo
  | _ => []
  end.

Definition edges_of (o : object V) : list (nat * nat * V) :=
  match o with
  | Ndarray r c buf =>
      select (zip (zip (flat (np_indices_0 r c)) (flat (np_indices_1 r c)))
                buf) (mask_of o)
  | SpMatrix _ _ coo => filter (λ e, e.1.1 ≠ e.1.2) coo
  | _ => []
  end.

(** The lines printed for a filtration name, and the name handed over. *)
Definition warning (filtration : string) : list string :=
  if bool_decide (filtration ∈ implemented_filtrations) then []
  else [("Unrecognized " +:+ filtration +:+ " filtration, using max")%string;
        ("Available algorithms : " +:+
         py_repr_list implemented_filtrations)%string].

Definition effective (filtration : string) : string :=
  if bool_decide (filtration ∈ implemented_filtrations) then filtration
  else "max"%string.

(** The result of the engine on the arguments of a call. *)
Definition engine_result (c : engine_call V) : list homology :=
  compute_homology (c_vertices c) (c_edges c) (c_min_dimension c)
    (c_max_dimension c) (c_directed c) (c_coeff c) (c_approximation c)
    (c_filtration c).

(** The dictionary built from the result of the engine. *)
Definition marshal (hs : list homology) : exn + out :=
  match hs with
  | h :: _ =>
      inr (Out (get_persistence_diagram h) (get_cell_count h)
             (get_betti_numbers h) (get_euler_characteristic h))
  | [] => inl IndexError
  end.

(** The call [flagser] makes for a matrix [o] and its scalar arguments. *)
Definition call_for (o : object V) (min_dimension : Z)
    (max_dimension : pydim) (directed : bool) (filtration : string)
    (coeff approximation : Z) : engine_call V :=
  EngineCall (vertices_of o) (Triples (edges_of o)) min_dimension
    (if eq_inf max_dimension then Dim (-1) else max_dimension) directed coeff
    (if py_not approximation then (-1)%Z else approximation)
    (effective filtration).

(** The calls to the engine made by a run that started in [w]. *)
Definition calls_made {A : Type} (w : world V) (run : A * world V)
  : list (engine_call V) :=
  drop (length (engine_log w)) (engine_log run.2).

(** A computation that leaves the objects of [old] in place, whatever it
    appends after them. *)
Definition frames {A : Type} (old : list (object V)) (m : Py V A) : Prop :=
  ∀ w, old `prefix_of` heap w → old `prefix_of` heap (m w).2.

(** *** Dense and sparse forms of one matrix *)

(** [S.toarray()]: the dense buffer of a sparse matrix, every cell the sum
    of what is stored there. *)
Definition toarray (r c : nat) (coo : list (nat * nat * V)) : list V :=
  flat ((λ i, (λ j, sum_duplicates (stored_at coo i j)) <$> seq 0 c)
        <$> seq 0 r).

(** The sparse matrix that stores every cell of a dense buffer, row by
    row. *)
Definition store_all (r c : nat) (buf : list V) : list (nat * nat * V) :=
  zip (zip (flat (np_indices_0 r c)) (flat (np_indices_1 r c))) buf.

End Flagser.

(** ** Scalars of two dtypes *)

(** [int64] wraps around. *)
Definition wrap64 (z : Z) : Z := ((z + 2 ^ 63) mod 2 ^ 64 - 2 ^ 63)%Z.

#[global] Instance int64_scalar : Scalar Z :=
  {| dtype_of := dt_int64; np_zero := 0%Z; np_add a b := wrap64 (a + b) |}.

(** On booleans numpy adds with "or". *)
#[global] Instance bool_scalar : Scalar bool :=
  {| dtype_of := dt_bool; np_zero := false; np_add := orb |}.

(** An engine that returns one homology object with nothing in it, to run
    the function on examples. *)
Definition idle_engine {V : Type} :
  list V → edge_array V → Z → pydim → bool → Z → Z → string
  → list (homology unit) :=
  λ _ _ _ _ _ _ _ _, [Homology unit [] [] [] 0%Z].

(** The names listed in the docstring of [flagser]. *)
Definition names : list string :=
  ["dimension"; "zero"; "max"; "max3"; "max_plus_one"; "product"; "sum";
   "pmean"; "pmoment"; "remove_edges"; "vertex_degree"]%string.

(** Stores with one matrix at location 0:
    [np.array([[7, 1], [0, 9]])],
    [coo_matrix(([5, 3, 4, 0], ([0, 1, 1, 1], [1, 1, 1, 0])), shape=(2, 2))],
    [np.array([[False, True], [False, False]])],
    [coo_matrix(([5], ([0], [1])), shape=(1, 2))],
    [np.array([[0, 1], [0, 0]])] and
    [coo_matrix(([1], ([0], [1])), shape=(2, 2))]. *)
Definition dense_2x2 : world Z :=
  World [Ndarray 2 2 [7; 1; 0; 9]%Z] [] [].

Definition sparse_2x2 : world Z :=
  World [SpMatrix 2 2 [(0, 1, 5%Z); (1, 1, 3%Z); (1, 1, 4%Z); (1, 0, 0%Z)]]
    [] [].

Definition bool_2x2 : world bool :=
  World [Ndarray 2 2 [false; true; false; false]] [] [].

Definition sparse_1x2 : world Z :=
  World [SpMatrix 1 2 [(0, 1, 5%Z)]] [] [].

Definition dense_one_edge : world Z :=
  World [Ndarray 2 2 [0; 1; 0; 0]%Z] [] [].

Definition sparse_one_edge : world Z :=
  World [SpMatrix 2 2 [(0, 1, 1%Z)]] [] [].


(** ** Flag files

    The functions that read and write flag files are not in the sources
    at hand; their tests are.  They are modelled from the specification. *)

Section FlagFile.
Context {V : Type} `{Scalar V}.

(** A number as it is written in a file, with the reader and the writer of
    numbers. *)
Variable text : Type.
Variable parse : text → V.
Variable print : V → text.

(** Modelled from the spec: the flag file, which the sources only use
    through [load_weighted_flag] and [save_weighted_flag].  "A
    vertex-weight line followed by edge lines (source, target[,
    weight])". *)
Record flag_file := FlagFile {
  vertex_line : list text;
  edge_lines : list (nat * nat * text)
}.

(** Modelled from the spec: [load_weighted_flag], missing from the
    sources.  The matrix has one row and one column per vertex; its
    "diagonal holds vertex weights" and its "off-diagonal entries hold edge
    weights".  It is loaded as a sparse matrix, of which "only
    explicitly-stored off-diagonal entries are edges": the vertex weights
    are stored on the diagonal, and one entry is stored per edge line. *)
Definition load_weighted_flag (f : flag_file) : object V :=
  let n := length (vertex_line f) in
  SpMatrix n n
    (zip_with (λ i t, (i, i, parse t)) (seq 0 n) (vertex_line f) ++
     ((λ e, (e.1.1, e.1.2, parse e.2)) <$> edge_lines f)).

(** Modelled from the spec: [save_weighted_flag], missing from the
    sources.  It "persists an adjacency matrix textually": the vertex
    weights of the matrix on the first line, then one line per edge of the
    matrix, vertex weights and edges being those of the ingestion. *)
Definition save_weighted_flag (m : object V) : flag_file :=
  FlagFile (print <$> vertices_of m)
    ((λ e, (e.1.1, e.1.2, print e.2)) <$> edges_of m).

End FlagFile.

(** ** Facts about selection by a mask *)

Lemma select_nil_r {A} (l : list A) : select l [] = [].
Proof. by destruct l. Qed.

Section Select.
Context {A B : Type}.
Implicit Types (l : list A) (k : list B) (m : list bool).

Lemma select_zip l k m :
  zip (select l m) (select k m) = select (zip l k) m.
Proof.
  revert l k. induction m as [|b m IH]; intros l k.
  { by rewrite !select_nil_r. }
  destruct l as [|x l], k as [|y k]; simpl; try done.
  - by rewrite zip_with_nil_r.
  - destruct b; simpl; by rewrite IH.
Qed.

Lemma length_select_same l k m :
  length l = length k → length (select l m) = length (select k m).
Proof.
  revert k m. induction l as [|x l IH]; intros [|y k] [|[] m] Hlen;
    simplify_eq/=; auto.
Qed.

(** A mask computed from the elements selects what [filter] keeps. *)
Lemma select_fmap (f : A → B) (p : A → bool) l :
  select (f <$> l) (p <$> l) = f <$> filter (λ x, p x) l.
Proof.
  induction l as [|x l IH]; [done|]. csimpl.
  rewrite filter_cons. destruct (p x); csimpl; by rewrite IH.
Qed.

Lemma select_self (p : A → bool) l :
  select l (p <$> l) = filter (λ x, p x) l.
Proof.
  induction l as [|x l IH]; [done|]. csimpl.
  rewrite filter_cons. destruct (p x); csimpl; by rewrite IH.
Qed.

End Select.

(** Position [j] is selected from [seq a n] when the mask is set there. *)
Lemma elem_of_select_seq (m : list bool) a n j :
  j ∈ select (seq a n) m ↔ a ≤ j < a + n ∧ m !! (j - a) = Some true.
Proof.
  revert a m. induction n as [|n IH]; intros a m; simpl.
  { rewrite elem_of_nil. lia. }
  destruct m as [|b m].
  { rewrite elem_of_nil. split; [done|]. intros [_ Hm].
    by rewrite lookup_nil in Hm. }
  assert (Hrec : j ∈ select (seq (S a) n) m ↔
                 S a ≤ j < a + S n ∧ (b :: m) !! (j - a) = Some true).
  { rewrite IH. split.
    - intros [? Hm]. split; [lia|].
      replace (j - a) with (S (j - S a)) by lia. done.
    - intros [? Hm]. split; [lia|].
      replace (j - a) with (S (j - S a)) in Hm by lia. done. }
  destruct b.
  - rewrite elem_of_cons, Hrec. split.
    + intros [->|[? ?]]; [|split; [lia|done]].
      split; [lia|]. by rewrite Nat.sub_diag.
    + intros [? Hm]. destruct (decide (j = a)) as [->|]; [by left|].
      right. split; [lia|done].
  - rewrite Hrec. split.
    + intros [? ?]. split; [lia|done].
    + intros [? Hm]. split; [|done].
      destruct (decide (j = a)) as [->|]; [|lia].
      by rewrite Nat.sub_diag in Hm.
Qed.

(** ** Facts about the numpy operations *)

Lemma setitem_false_lookup (idx : list nat) (mask : list bool) j :
  setitem_false mask idx !! j =
  (λ b, if bool_decide (j ∈ idx) then false else b) <$> mask !! j.
Proof.
  unfold setitem_false. revert mask.
  induction idx as [|i idx IH]; intros mask; simpl.
  { by destruct (mask !! j). }
  rewrite IH. destruct (decide (i = j)) as [->|Hne].
  - destruct (decide (j < length mask)).
    + rewrite list_lookup_insert_eq by done.
      destruct (mask !! j) eqn:Hj; simpl.
      * rewrite (bool_decide_true (j ∈ j :: idx))
          by (apply elem_of_cons; by left).
        by destruct (bool_decide (j ∈ idx)).
      * apply lookup_ge_None in Hj. lia.
    + rewrite list_insert_ge by lia.
      rewrite lookup_ge_None_2 by lia. done.
  - rewrite list_lookup_insert_ne by done.
    destruct (mask !! j); simpl; [|done].
    destruct (decide (j ∈ idx)) as [Hin|Hnin].
    + rewrite (bool_decide_true (j ∈ idx)) by done.
      rewrite (bool_decide_true (j ∈ i :: idx)); [done|].
      apply elem_of_cons. by right.
    + rewrite (bool_decide_false (j ∈ idx)) by done.
      rewrite (bool_decide_false (j ∈ i :: idx)); [done|].
      rewrite elem_of_cons. intros [?|?]; [congruence|done].
Qed.

(** The rows of a grid, one after the other, read by the flat index. *)
Lemma flat_grid {A} (f : nat → nat → A) r c :
  flat ((λ i, f i <$> seq 0 c) <$> seq 0 r) =
  (λ k, f (k / c) (k mod c)) <$> seq 0 (r * c).
Proof.
  unfold flat. induction r as [|r IH]; [done|].
  rewrite seq_S, fmap_app, concat_app, IH. simpl.
  rewrite app_nil_r.
  replace (c + r * c) with (r * c + c) by lia.
  rewrite seq_app, fmap_app. f_equal. simpl.
  rewrite <- (Nat.add_0_r (r * c)) at 1.
  rewrite <- fmap_add_seq, <- list_fmap_compose.
  apply list_fmap_ext. intros i j Hj. simpl.
  apply lookup_seq in Hj as [-> Hi]. simpl.
  destruct (decide (c = 0)) as [->|]; [lia|].
  f_equal.
  - apply (Nat.div_unique _ _ _ i); lia.
  - apply (Nat.mod_unique _ _ r); lia.
Qed.

(** ** Running the function *)

Section Run.
Context {V : Type} `{Scalar V}.
Variable diagram : Type.
Variable compute_homology :
  list V → edge_array V → Z → pydim → bool → Z → Z → string
  → list (homology diagram).
Variable implemented_filtrations : list string.

Local Abbreviation flagser := (flagser diagram compute_homology
                                 implemented_filtrations).
Local Abbreviation call_for := (call_for implemented_filtrations).
Local Abbreviation warning := (warning implemented_filtrations).
Local Abbreviation engine_result := (engine_result diagram compute_homology).

Lemma comprehension_shift (pre pd : list diagram) :
  omap (λ i, (pre ++ pd) !! i) (seq (length pre) (length pd)) = pd.
Proof.
  revert pre. induction pd as [|x pd IH]; intros pre; [done|].
  simpl. rewrite list_lookup_middle by done. f_equal.
  specialize (IH (pre ++ [x])).
  rewrite <- app_assoc, length_app, Nat.add_1_r in IH. done.
Qed.

Lemma comprehension_id (pd : list diagram) :
  omap (λ i, pd !! i) (seq 0 (length pd)) = pd.
Proof. apply (comprehension_shift []). Qed.

Lemma lookup_fresh {A} (h ext : list A) k :
  (h ++ ext) !! (length h + k) = ext !! k.
Proof. rewrite lookup_app_r by lia. f_equal. lia. Qed.

Lemma lookup_fresh_0 {A} (h ext : list A) :
  (h ++ ext) !! length h = ext !! 0.
Proof. rewrite <- (lookup_fresh h ext 0). f_equal. lia. Qed.

Lemma length_flat_grid {A} (f : nat → nat → A) r c :
  length (flat ((λ i, f i <$> seq 0 c) <$> seq 0 r)) = r * c.
Proof. by rewrite flat_grid, length_fmap, length_seq. Qed.

Lemma length_indices_0 r c : length (flat (np_indices_0 r c)) = r * c.
Proof. apply (length_flat_grid (λ i _, i)). Qed.

Lemma length_indices_1 r c : length (flat (np_indices_1 r c)) = r * c.
Proof.
  unfold np_indices_1.
  rewrite <- (length_flat_grid (λ _ j, j) r c). do 2 f_equal.
  apply list_fmap_ext. intros _ i _. by rewrite list_fmap_id.
Qed.

Lemma length_eye_mask n : length (np_logical_not (flat (np_eye n))) = n * n.
Proof.
  unfold np_logical_not. rewrite length_fmap.
  apply (length_flat_grid (λ i j, i =? j)).
Qed.

Lemma vstack3_T_select {A B C} (l0 : list A) (l1 : list B) (l2 : list C) m :
  length l0 = length l1 → length l1 = length l2 →
  vstack3_T (select l0 m) (select l1 m) (select l2 m) =
  inr (select (zip (zip l0 l1) l2) m).
Proof.
  intros H01 H12. unfold vstack3_T.
  rewrite (length_select_same l0 l1 m H01), (length_select_same l1 l2 m H12).
  rewrite Nat.eqb_refl. simpl. by rewrite !select_zip.
Qed.

Lemma np_equal_coo {A} (coo : list (nat * nat * A)) :
  np_equal coo.*1.*1 coo.*1.*2 = (λ e, e.1.1 =? e.1.2) <$> coo.
Proof. induction coo as [|e coo IH]; [done|]. csimpl. by rewrite <- IH. Qed.

(** The mask of the sparse branch: ones, then [False] where the row equals
    the column. *)
Lemma sparse_mask {A} (coo : list (nat * nat * A)) :
  setitem_false (np_ones (length coo.*1.*1))
    (select (np_arange (length coo.*1.*1)) (np_equal coo.*1.*1 coo.*1.*2)) =
  (λ e, negb (e.1.1 =? e.1.2)) <$> coo.
Proof.
  rewrite np_equal_coo, !length_fmap. unfold np_ones, np_arange.
  apply list_eq. intros j.
  rewrite setitem_false_lookup, !list_lookup_fmap.
  destruct (coo !! j) as [e|] eqn:Hj; simpl.
  - apply lookup_lt_Some in Hj as Hlt.
    rewrite lookup_replicate_2 by done. simpl. f_equal.
    destruct (e.1.1 =? e.1.2) eqn:He; simpl.
    + rewrite bool_decide_true; [done|].
      apply elem_of_select_seq. split; [lia|].
      by rewrite Nat.sub_0_r, list_lookup_fmap, Hj; simpl; rewrite He.
    + rewrite bool_decide_false; [done|].
      rewrite elem_of_select_seq, Nat.sub_0_r, list_lookup_fmap, Hj. simpl.
      rewrite He. by intros [_ ?].
  - apply lookup_ge_None in Hj.
    by rewrite (proj1 (lookup_replicate_None _ _ _) Hj).
Qed.

Lemma length_setitem_false mask idx :
  length (setitem_false mask idx) = length mask.
Proof.
  unfold setitem_false. revert mask.
  induction idx as [|i idx IH]; intros mask; simpl; [done|].
  by rewrite IH, length_insert.
Qed.

Lemma select_off_diagonal {A} (coo : list (nat * nat * A)) :
  select coo ((λ e, negb (e.1.1 =? e.1.2)) <$> coo) =
  filter (λ e, e.1.1 ≠ e.1.2) coo.
Proof.
  rewrite select_self. apply list_filter_iff. intros e.
  destruct (Nat.eqb_spec e.1.1 e.1.2); simpl; naive_solver.
Qed.

(** Normal form of the store and of the fresh locations. *)
Ltac fresh_heap :=
  repeat first
    [ rewrite length_app
    | rewrite <- app_assoc
    | rewrite <- Nat.add_assoc
    | rewrite lookup_fresh
    | rewrite lookup_fresh_0
    | progress simpl ].

Lemma flagser_run flag_matrix min_dimension max_dimension directed filtration
    coeff approximation (w : world V) (o : object V) :
  heap w !! flag_matrix = Some o →
  well_formed o →
  flagser flag_matrix min_dimension max_dimension directed filtration coeff
    approximation w =
  let c := call_for o min_dimension max_dimension directed filtration coeff
             approximation in
  (marshal diagram (engine_result c),
   World (heap w ++ [Vector (vertices_of o); BoolArray (mask_of o);
                     EdgeArray (Triples (edges_of o))])
     (stdout w ++ warning filtration)
     (engine_log w ++ [c])).
Proof.
  intros Hfm Hwf. destruct w as [h so lg]. simpl in *.
  destruct o as [r c buf|r c coo| | |]; try done.
  - unfold flagser, mbind, py_bind, deref, alloc, shape_0, read_bools,
      read_vector, read_edges, assign, call_engine, lift, mret, py_ret, print;
      simpl.
    rewrite Hfm. simpl. unfold mbind, py_bind, deref, mret, py_ret. simpl.
    fresh_heap.
    rewrite length_fmap, length_seq.
    rewrite length_indices_0, length_indices_1, length_eye_mask, Hwf.
    assert (Hle : (r `min` c) * (r `min` c) ≤ r * c) by nia.
    rewrite (proj2 (Nat.ltb_ge _ _) Hle).
    rewrite vstack3_T_select
      by (by rewrite ?length_indices_0, ?length_indices_1, ?Hwf).
    unfold call_for, engine_result, warning, effective. simpl.
    destruct (bool_decide (filtration ∈ implemented_filtrations));
      fresh_heap.
    + destruct compute_homology; simpl;
        by rewrite ?comprehension_id, ?app_nil_r.
    + destruct compute_homology; simpl;
        by rewrite ?comprehension_id, ?app_nil_r.
  - unfold flagser, mbind, py_bind, deref, alloc, shape_0, read_bools,
      read_vector, read_edges, assign, call_engine, lift, mret, py_ret, print;
      simpl.
    rewrite Hfm. simpl. unfold mbind, py_bind, deref, mret, py_ret. simpl.
    assert (Hlen : (length (np_arange (length coo.*1.*1)) =?
                    length (np_equal coo.*1.*1 coo.*1.*2)) = true).
    { rewrite np_equal_coo. unfold np_arange.
      rewrite length_seq, !length_fmap. apply Nat.eqb_refl. }
    rewrite Hlen. clear Hlen.
    rewrite list_lookup_middle by done. simpl.
    rewrite insert_app_r_alt by done. rewrite Nat.sub_diag. simpl.
    rewrite sparse_mask.
    rewrite list_lookup_middle by done. simpl.
    rewrite !length_fmap, Nat.eqb_refl.
    rewrite vstack3_T_select by (by rewrite !length_fmap).
    rewrite !zip_fst_snd, select_off_diagonal.
    unfold call_for, engine_result, warning, effective. simpl.
    destruct (bool_decide (filtration ∈ implemented_filtrations));
      fresh_heap.
    + destruct compute_homology; simpl;
        by rewrite ?comprehension_id, ?app_nil_r.
    + destruct compute_homology; simpl;
        by rewrite ?comprehension_id, ?app_nil_r.
Qed.

(** *** The edges of a dense square matrix *)

Lemma flat_indices_0 r c :
  flat (np_indices_0 r c) = (λ k, k / c) <$> seq 0 (r * c).
Proof. apply (flat_grid (λ i _, i)). Qed.

Lemma flat_indices_1 r c :
  flat (np_indices_1 r c) = (λ k, k mod c) <$> seq 0 (r * c).
Proof.
  rewrite <- (flat_grid (λ _ j, j) r c). unfold np_indices_1. f_equal.
  apply list_fmap_ext. intros _ i _. by rewrite list_fmap_id.
Qed.

Lemma flat_eye n :
  flat (np_eye n) = (λ k, k / n =? k mod n) <$> seq 0 (n * n).
Proof. apply (flat_grid (λ i j, i =? j)). Qed.

Lemma buffer_by_index (buf : list V) :
  buf = (λ k, nth k buf np_zero) <$> seq 0 (length buf).
Proof.
  apply list_eq. intros k. rewrite list_lookup_fmap.
  destruct (decide (k < length buf)) as [Hk|Hk].
  - rewrite lookup_seq_lt by done. simpl.
    destruct (nth_lookup_or_length buf k np_zero) as [->|]; [done|lia].
  - rewrite lookup_seq_ge, lookup_ge_None_2 by lia. done.
Qed.

Lemma zip_fmap_same {A B C} (f : A → B) (g : A → C) (l : list A) :
  zip (f <$> l) (g <$> l) = (λ x, (f x, g x)) <$> l.
Proof. induction l as [|x l IH]; [done|]. csimpl. by rewrite IH. Qed.

(** The edges of an [n]-by-[n] dense matrix, by flat index. *)
Lemma edges_of_square n (buf : list V) :
  length buf = n * n →
  edges_of (Ndarray n n buf) =
  (λ k, (k / n, k mod n, nth k buf np_zero)) <$>
    filter (λ k, k / n ≠ k mod n) (seq 0 (n * n)).
Proof.
  intros Hlen. unfold edges_of, mask_of, np_logical_not.
  rewrite Nat.min_id, flat_indices_0, flat_indices_1, flat_eye.
  rewrite (buffer_by_index buf) at 1. rewrite Hlen.
  rewrite !zip_fmap_same, <- list_fmap_compose.
  rewrite (select_fmap _ (negb ∘ (λ k, k / n =? k mod n))).
  f_equal. apply list_filter_iff. intros k. simpl.
  destruct (Nat.eqb_spec (k / n) (k mod n)); simpl; naive_solver.
Qed.

(** In the row that starts at flat index [r * n], the positions off the
    diagonal. *)
Lemma count_off_diagonal_row n r a m :
  a + m ≤ n →
  length (filter (λ k, k / n ≠ k mod n) (seq (r * n + a) m)) =
  m - (if decide (a ≤ r < a + m) then 1 else 0).
Proof.
  revert a. induction m as [|m IH]; intros a Ham; simpl.
  { by destruct (decide _). }
  assert (Hdiv : (r * n + a) / n = r).
  { symmetry. apply (Nat.div_unique _ _ _ a); lia. }
  assert (Hmod : (r * n + a) mod n = a).
  { symmetry. apply (Nat.mod_unique _ _ r); lia. }
  replace (S (r * n + a)) with (r * n + S a) by lia.
  rewrite filter_cons, Hdiv, Hmod.
  destruct (decide (r ≠ a)); simpl; rewrite IH by lia;
    repeat case_decide; lia.
Qed.

Lemma count_off_diagonal n r :
  r ≤ n →
  length (filter (λ k, k / n ≠ k mod n) (seq 0 (r * n))) = r * (n - 1).
Proof.
  induction r as [|r IH]; intros Hr; [done|].
  replace (S r * n) with (r * n + n) by lia.
  rewrite seq_app, filter_app, length_app, IH by lia. simpl.
  pose proof (count_off_diagonal_row n r 0 n) as Hrow.
  rewrite Nat.add_0_r in Hrow. rewrite Hrow by lia.
  rewrite decide_True by lia. lia.
Qed.

Lemma length_edges_of_square n (buf : list V) :
  length buf = n * n →
  length (edges_of (Ndarray n n buf)) = n * (n - 1).
Proof.
  intros Hlen. rewrite edges_of_square by done.
  rewrite length_fmap. by apply count_off_diagonal.
Qed.

Lemma elem_of_edges_of_square n (buf : list V) i j v :
  length buf = n * n →
  (i, j, v) ∈ edges_of (Ndarray n n buf) ↔
  i < n ∧ j < n ∧ i ≠ j ∧ v = nth (i * n + j) buf np_zero.
Proof.
  intros Hlen. rewrite edges_of_square by done.
  rewrite list_elem_of_fmap. split.
  - intros (k & Heq & Hk). simplify_eq.
    apply list_elem_of_filter in Hk as [Hne Hk].
    apply elem_of_seq in Hk as [_ Hk]. simpl in Hk.
    assert (n ≠ 0) by lia.
    assert (k mod n < n) by (by apply Nat.mod_upper_bound).
    assert (k = n * (k / n) + k mod n) by (by apply Nat.div_mod).
    repeat split; [nia|done|done|].
    f_equal. lia.
  - intros (Hi & Hj & Hne & ->). exists (i * n + j).
    assert ((i * n + j) / n = i) as Hdiv.
    { symmetry. apply (Nat.div_unique _ _ _ j); lia. }
    assert ((i * n + j) mod n = j) as Hmod.
    { symmetry. apply (Nat.mod_unique _ _ i); lia. }
    rewrite Hdiv, Hmod. split; [done|].
    apply list_elem_of_filter. rewrite Hdiv, Hmod. split; [done|].
    apply elem_of_seq. nia.
Qed.

(** The call recorded by a run on a well-formed matrix. *)
Lemma flagser_calls flag_matrix min_dimension max_dimension directed
    filtration coeff approximation (w : world V) (o : object V) :
  heap w !! flag_matrix = Some o →
  well_formed o →
  calls_made w (flagser flag_matrix min_dimension max_dimension directed
                  filtration coeff approximation w) =
  [call_for o min_dimension max_dimension directed filtration coeff
     approximation].
Proof.
  intros Hfm Hwf. unfold calls_made.
  rewrite (flagser_run _ _ _ _ _ _ _ _ o) by done. simpl.
  by rewrite drop_app_length.
Qed.

Lemma stored_at_nil (coo : list (nat * nat * V)) i j :
  (∀ v, (i, j, v) ∉ coo) → stored_at coo i j = [].
Proof.
  intros Hnone. unfold stored_at.
  destruct (filter _ coo) as [|[[i' j'] v] l] eqn:Hf; [done|].
  assert (Hin : (i', j', v) ∈ filter (λ e, e.1.1 = i ∧ e.1.2 = j) coo).
  { rewrite Hf. apply list_elem_of_here. }
  apply list_elem_of_filter in Hin as [[? ?] Hin]. simplify_eq/=.
  by destruct (Hnone v).
Qed.

Lemma lookup_vertices_of (o : object V) i :
  i < (shape_of o).1 `min` (shape_of o).2 →
  vertices_of o !! i =
  match o with
  | Ndarray _ c buf => Some (nth (i * c + i) buf np_zero)
  | SpMatrix _ _ coo => Some (sum_duplicates (stored_at coo i i))
  | _ => None
  end.
Proof.
  destruct o; simpl; try lia; intros Hi;
    by rewrite list_lookup_fmap, lookup_seq_lt.
Qed.

Lemma length_vertices_of (o : object V) :
  length (vertices_of o) = (shape_of o).1 `min` (shape_of o).2.
Proof. destruct o; simpl; by rewrite ?length_fmap, ?length_seq. Qed.

(** The identity test of the source never succeeds: the dtype of an array
    is an instance of [numpy.dtype], not the class [bool]. *)
Lemma dtype_is_not_bool (o : object V) :
  py_is (dtype o) (PyClass cls_bool) = false.
Proof. by destruct o. Qed.

(** *** A sparse matrix that stores every cell *)

Lemma filter_fmap {A B} (f : A → B) (P : B → Prop) `{!∀ y, Decision (P y)}
    (l : list A) :
  filter P (f <$> l) = f <$> filter (λ x, P (f x)) l.
Proof.
  induction l as [|x l IH]; [done|]. csimpl.
  rewrite !filter_cons. destruct (decide (P (f x))); csimpl; by rewrite IH.
Qed.

Lemma filter_eq_seq x a m :
  filter (λ k, k = x) (seq a m) = if decide (a ≤ x < a + m) then [x] else [].
Proof.
  revert a. induction m as [|m IH]; intros a; simpl.
  { rewrite decide_False by lia. done. }
  rewrite filter_cons, IH.
  destruct (decide (a = x)) as [->|]; repeat case_decide; try done; lia.
Qed.

Lemma flat_index_unique n i j k :
  j < n → (k / n = i ∧ k mod n = j) ↔ k = i * n + j.
Proof.
  intros Hj. assert (n ≠ 0) by lia. split.
  - intros [<- <-]. rewrite (Nat.div_mod k n) at 1 by done. lia.
  - intros ->. split.
    + symmetry. apply (Nat.div_unique _ _ _ j); lia.
    + symmetry. apply (Nat.mod_unique _ _ i); lia.
Qed.

Lemma store_all_by_index n (buf : list V) :
  length buf = n * n →
  store_all n n buf =
  (λ k, (k / n, k mod n, nth k buf np_zero)) <$> seq 0 (n * n).
Proof.
  intros Hlen. unfold store_all.
  rewrite flat_indices_0, flat_indices_1.
  rewrite (buffer_by_index buf) at 1. rewrite Hlen.
  by rewrite !zip_fmap_same.
Qed.

Lemma stored_at_store_all n (buf : list V) i j :
  length buf = n * n → i < n → j < n →
  stored_at (store_all n n buf) i j = [nth (i * n + j) buf np_zero].
Proof.
  intros Hlen Hi Hj. unfold stored_at.
  rewrite store_all_by_index, filter_fmap by done. simpl.
  rewrite (list_filter_iff _ (λ k, k = i * n + j))
    by (intros k; by apply flat_index_unique).
  rewrite filter_eq_seq, decide_True by nia. done.
Qed.

Lemma toarray_by_index n (coo : list (nat * nat * V)) :
  toarray n n coo =
  (λ k, sum_duplicates (stored_at coo (k / n) (k mod n))) <$> seq 0 (n * n).
Proof.
  apply (flat_grid (λ i j, sum_duplicates (stored_at coo i j))).
Qed.

(** Storing every cell and reading the matrix back gives the buffer. *)
Lemma toarray_store_all n (buf : list V) :
  length buf = n * n → toarray n n (store_all n n buf) = buf.
Proof.
  intros Hlen. rewrite toarray_by_index.
  etrans; [|symmetry; apply buffer_by_index]. rewrite Hlen.
  apply list_fmap_ext. intros k ? [-> Hk]%lookup_seq. simpl.
  assert (n ≠ 0) by lia.
  assert (k mod n < n) by (by apply Nat.mod_upper_bound).
  assert (k = n * (k / n) + k mod n) by (by apply Nat.div_mod).
  rewrite stored_at_store_all by (done || nia). simpl.
  f_equal. lia.
Qed.

(** The vertex arrays of a sparse matrix and of its dense form. *)
Lemma vertices_of_toarray n (coo : list (nat * nat * V)) :
  vertices_of (Ndarray n n (toarray n n coo)) =
  vertices_of (SpMatrix n n coo).
Proof.
  simpl. apply list_fmap_ext. intros i ? [-> Hi]%lookup_seq. simpl.
  rewrite Nat.min_id in Hi.
  rewrite toarray_by_index.
  erewrite nth_lookup_Some;
    [|rewrite list_lookup_fmap, lookup_seq_lt by nia; done].
  simpl. by destruct (proj2 (flat_index_unique n i i (i * n + i) Hi) eq_refl)
    as [-> ->].
Qed.

(** The edges of a sparse matrix that stores every cell are the edges of
    the dense matrix. *)
Lemma edges_of_store_all n (buf : list V) :
  length buf = n * n →
  edges_of (SpMatrix n n (store_all n n buf)) = edges_of (Ndarray n n buf).
Proof.
  intros Hlen. rewrite edges_of_square by done. simpl.
  by rewrite store_all_by_index, filter_fmap.
Qed.

(** *** The store under a call

    Whatever the argument refers to, and however the call ends, the
    objects that were in the store are not touched: the function appends
    fresh arrays and assigns only to the mask it allocated. *)
Implicit Types old : list (object V).

Lemma frames_ret {A} old (a : A) : frames old (mret a).
Proof. by intros w Hw. Qed.

Lemma frames_lift {A} old (r : exn + A) : frames old (lift r).
Proof. by intros w Hw. Qed.

Lemma frames_deref old l : frames old (deref l).
Proof. intros w Hw. unfold deref. simpl. by destruct (heap w !! l). Qed.

Lemma frames_print old s : frames old (print s).
Proof. by intros w Hw. Qed.

Lemma frames_call_engine old c :
  frames old (call_engine diagram compute_homology c).
Proof. by intros w Hw. Qed.

Lemma frames_alloc old o : frames old (alloc o).
Proof. intros w Hw. simpl. by apply prefix_app_r. Qed.

(** An assignment at a location past the objects of [old]. *)
Lemma frames_assign old l o : length old ≤ l → frames old (assign l o).
Proof.
  intros Hl w [k Hk]. simpl. rewrite Hk.
  rewrite insert_app_r_alt by done. by eexists.
Qed.

Lemma frames_bind {A B} old (m : Py V A) (k : A → Py V B) :
  frames old m → (∀ a, frames old (k a)) → frames old (m ≫= k).
Proof.
  intros Hm Hk w Hw. unfold mbind, py_bind.
  specialize (Hm w Hw). destruct (m w) as [[e|a] w']; [done|].
  by apply Hk.
Qed.

(** The location of a fresh object is past the objects of [old]. *)
Lemma frames_bind_alloc {B} old o (k : loc → Py V B) :
  (∀ l, length old ≤ l → frames old (k l)) → frames old (alloc o ≫= k).
Proof.
  intros Hk w Hw. unfold mbind, py_bind. simpl.
  apply Hk; simpl; [|by apply prefix_app_r].
  by apply prefix_length.
Qed.

Ltac frames_step :=
  match goal with
  | |- frames _ (alloc _ ≫= _) => apply frames_bind_alloc; intros ? ?
  | |- frames _ (_ ≫= _) => apply frames_bind; [|intros ?]
  | |- frames _ (mret _) => apply frames_ret
  | |- frames _ (lift _) => apply frames_lift
  | |- frames _ (deref _) => apply frames_deref
  | |- frames _ (print _) => apply frames_print
  | |- frames _ (call_engine _ _ _) => apply frames_call_engine
  | |- frames _ (alloc _) => apply frames_alloc
  | |- frames _ (assign _ _) => by apply frames_assign
  | |- frames _ (if ?b then _ else _) => destruct b
  | |- frames _ (match ?x with _ => _ end) => destruct x
  end.

Lemma flagser_frames old flag_matrix min_dimension max_dimension directed
    filtration coeff approximation :
  frames old (flagser flag_matrix min_dimension max_dimension directed
               filtration coeff approximation).
Proof.
  unfold flagser, diagonal, shape, flat_of, tocoo, shape_0, read_bools,
    read_vector, read_edges.
  repeat frames_step.
Qed.

(** ** The claims *)
(** ** The claims *)

(** C1. For a dense n-by-n matrix the edges handed to the engine are all
    the cells off the diagonal, zeros included: there are n * (n - 1) of
    them, one for each position (i, j) with i <> j, with the weight found
    in the cell.  For a sparse matrix the edges are the stored entries off
    the diagonal, in the order and number in which they are stored, so a
    position that is not stored gives no edge.  (The statement holds for
    every dtype.) *)
Theorem edges_dense_every_cell_sparse_stored_only flag_matrix min_dimension
    max_dimension directed filtration coeff approximation (w : world V) :
  (∀ n buf,
     heap w !! flag_matrix = Some (Ndarray n n buf) →
     length buf = n * n →
     ∃ es, c_edges <$> calls_made w
             (flagser flag_matrix min_dimension max_dimension directed
                filtration coeff approximation w) = [Triples es] ∧
           length es = n * (n - 1) ∧
           ∀ i j v, (i, j, v) ∈ es ↔
                    i < n ∧ j < n ∧ i ≠ j ∧ v = nth (i * n + j) buf np_zero) ∧
  (∀ r c coo,
     heap w !! flag_matrix = Some (SpMatrix r c coo) →
     ∃ es, c_edges <$> calls_made w
             (flagser flag_matrix min_dimension max_dimension directed
                filtration coeff approximation w) = [Triples es] ∧
           es = filter (λ e, e.1.1 ≠ e.1.2) coo ∧
           ∀ i j v, (i, j, v) ∈ es ↔ (i, j, v) ∈ coo ∧ i ≠ j).
Proof.
  split.
  - intros n buf Hfm Hlen. exists (edges_of (Ndarray n n buf)).
    rewrite (flagser_calls _ _ _ _ _ _ _ _ _ Hfm Hlen).
    split; [done|]. split; [by apply length_edges_of_square|].
    intros i j v. by apply elem_of_edges_of_square.
  - intros r c coo Hfm. exists (edges_of (SpMatrix r c coo)).
    rewrite (flagser_calls _ _ _ _ _ _ _ _ _ Hfm I).
    split; [done|]. split; [done|].
    intros i j v. simpl. rewrite list_elem_of_filter. simpl. tauto.
Qed.

(** C2. For a square matrix, dense or sparse, no edge handed to the engine
    has its source equal to its target, and the vertex array has n entries:
    entry i is the cell (i, i) of a dense matrix; for a sparse matrix it is
    what is stored at (i, i), summed when it is stored more than once, and
    zero when nothing is stored there. *)
Theorem no_self_loop_and_diagonal_as_vertices flag_matrix min_dimension
    max_dimension directed filtration coeff approximation (w : world V) :
  (∀ n buf,
     heap w !! flag_matrix = Some (Ndarray n n buf) →
     length buf = n * n →
     ∃ c es, calls_made w
               (flagser flag_matrix min_dimension max_dimension directed
                  filtration coeff approximation w) = [c] ∧
             c_edges c = Triples es ∧
             (∀ i j v, (i, j, v) ∈ es → i ≠ j) ∧
             length (c_vertices c) = n ∧
             ∀ i, i < n →
                  c_vertices c !! i = Some (nth (i * n + i) buf np_zero)) ∧
  (∀ n coo,
     heap w !! flag_matrix = Some (SpMatrix n n coo) →
     ∃ c es, calls_made w
               (flagser flag_matrix min_dimension max_dimension directed
                  filtration coeff approximation w) = [c] ∧
             c_edges c = Triples es ∧
             (∀ i j v, (i, j, v) ∈ es → i ≠ j) ∧
             length (c_vertices c) = n ∧
             ∀ i, i < n →
                  c_vertices c !! i =
                    Some (sum_duplicates (stored_at coo i i)) ∧
                  ((∀ v, (i, i, v) ∉ coo) →
                   c_vertices c !! i = Some np_zero) ∧
                  (∀ v, stored_at coo i i = [v] →
                        c_vertices c !! i = Some v)).
Proof.
  split.
  - intros n buf Hfm Hlen.
    eexists _, (edges_of (Ndarray n n buf)).
    split; [by apply flagser_calls|]. split; [done|]. split; [|split].
    + intros i j v Hin. apply elem_of_edges_of_square in Hin; [|done].
      tauto.
    + cbn [call_for c_vertices]. rewrite length_vertices_of. simpl. lia.
    + intros i Hi. cbn [call_for c_vertices].
      rewrite lookup_vertices_of by (simpl; lia). done.
  - intros n coo Hfm.
    eexists _, (edges_of (SpMatrix n n coo)).
    split; [by apply flagser_calls|]. split; [done|]. split; [|split].
    + intros i j v Hin. simpl in Hin.
      by apply list_elem_of_filter in Hin as [? _].
    + cbn [call_for c_vertices]. rewrite length_vertices_of. simpl. lia.
    + intros i Hi. cbn [call_for c_vertices].
      rewrite lookup_vertices_of by (simpl; lia).
      split; [done|]. split.
      * intros Hnone. by rewrite stored_at_nil.
      * intros v ->. done.
Qed.

(** C3, as the code behaves: also for a matrix of dtype bool the edges
    handed to the engine are triples (source, target, weight); the branch
    that builds pairs is never taken, because [flag_matrix.dtype is not
    bool] compares an instance of numpy.dtype with the class bool. *)
Theorem boolean_matrix_handed_triples flag_matrix min_dimension max_dimension
    directed filtration coeff approximation (w : world V) (o : object V) :
  dtype_of = dt_bool →
  heap w !! flag_matrix = Some o →
  well_formed o →
  ∃ es, c_edges <$> calls_made w
          (flagser flag_matrix min_dimension max_dimension directed
             filtration coeff approximation w) = [Triples es].
Proof.
  intros _ Hfm Hwf. exists (edges_of o).
  by rewrite (flagser_calls _ _ _ _ _ _ _ _ _ Hfm Hwf).
Qed.

(** C4. A filtration name that is not implemented raises nothing: the two
    lines of the warning are printed, the engine is called once, with the
    filtration "max", and the result, the store and the call are those of
    a call of [flagser] with filtration "max" and the other arguments
    unchanged. *)
Theorem unrecognized_filtration_falls_back_to_max flag_matrix min_dimension
    max_dimension directed filtration coeff approximation (w : world V)
    (o : object V) :
  filtration ∉ implemented_filtrations →
  heap w !! flag_matrix = Some o →
  well_formed o →
  let run := flagser flag_matrix min_dimension max_dimension directed
               filtration coeff approximation w in
  let run_max := flagser flag_matrix min_dimension max_dimension directed
                   "max" coeff approximation w in
  (∃ c, calls_made w run = [c] ∧ c_filtration c = "max"%string ∧
        run.1 = marshal diagram (engine_result c)) ∧
  stdout run.2 =
    stdout w ++
    [("Unrecognized " +:+ filtration +:+ " filtration, using max")%string;
     ("Available algorithms : " +:+
      py_repr_list implemented_filtrations)%string] ∧
  run.1 = run_max.1 ∧
  heap run.2 = heap run_max.2 ∧
  calls_made w run = calls_made w run_max.
Proof.
  intros Hf Hfm Hwf run run_max. subst run run_max.
  rewrite !(flagser_calls _ _ _ _ _ _ _ _ _ Hfm Hwf).
  rewrite !(flagser_run _ _ _ _ _ _ _ _ _ Hfm Hwf). simpl.
  assert (Heff : effective implemented_filtrations filtration = "max"%string).
  { unfold effective. by rewrite bool_decide_false. }
  assert (Hmax : effective implemented_filtrations "max" = "max"%string).
  { unfold effective. by destruct (bool_decide _). }
  unfold call_for, warning. rewrite Heff, Hmax, bool_decide_false by done.
  split; [|done]. eexists. split; [done|]. done.
Qed.

(** C5, as amended.  A matrix that is not square is not rejected: the
    function checks no shape and raises nothing of its own; it calls the
    engine with a vertex array of min(rows, columns) entries and the edges
    it extracted, and returns what it builds from the engine's result. *)
Theorem nonsquare_matrix_reaches_engine flag_matrix min_dimension
    max_dimension directed filtration coeff approximation (w : world V)
    (o : object V) r c :
  heap w !! flag_matrix = Some o →
  well_formed o →
  shape_of o = (r, c) →
  r ≠ c →
  let run := flagser flag_matrix min_dimension max_dimension directed
               filtration coeff approximation w in
  ∃ call, calls_made w run = [call] ∧
          length (c_vertices call) = r `min` c ∧
          run.1 = marshal diagram (engine_result call).
Proof.
  intros Hfm Hwf Hshape _ run. subst run.
  rewrite (flagser_calls _ _ _ _ _ _ _ _ _ Hfm Hwf).
  rewrite (flagser_run _ _ _ _ _ _ _ _ _ Hfm Hwf). simpl.
  eexists. split; [done|]. split; [|done].
  cbn [call_for c_vertices]. by rewrite length_vertices_of, Hshape.
Qed.

(** C6. The maximum dimension handed to the engine is -1 when
    [max_dimension] is np.inf and is [max_dimension] itself otherwise; so
    the engine receives -1 for np.inf, and for no other value than np.inf
    and -1 itself. *)
Theorem max_dimension_sentinel flag_matrix min_dimension max_dimension
    directed filtration coeff approximation (w : world V) (o : object V) :
  heap w !! flag_matrix = Some o →
  well_formed o →
  ∃ c, calls_made w
         (flagser flag_matrix min_dimension max_dimension directed
            filtration coeff approximation w) = [c] ∧
       (max_dimension = Inf → c_max_dimension c = Dim (-1)) ∧
       (max_dimension ≠ Inf → c_max_dimension c = max_dimension) ∧
       (c_max_dimension c = Dim (-1) ↔
        max_dimension = Inf ∨ max_dimension = Dim (-1)).
Proof.
  intros Hfm Hwf. eexists. split; [by apply flagser_calls|].
  cbn [call_for c_max_dimension].
  destruct max_dimension; simpl; repeat split; try congruence; eauto.
  intros [?|?]; congruence.
Qed.

(** C7. A call with approximation 0 is a call with approximation -1: the
    result, the store, the output and the call of the engine are the same,
    and the engine receives -1. *)
Theorem approximation_zero_is_exact flag_matrix min_dimension max_dimension
    directed filtration coeff :
  (∀ w : world V,
     flagser flag_matrix min_dimension max_dimension directed filtration
       coeff 0 w =
     flagser flag_matrix min_dimension max_dimension directed filtration
       coeff (-1) w) ∧
  (∀ (w : world V) (o : object V),
     heap w !! flag_matrix = Some o →
     well_formed o →
     ∃ c, calls_made w
            (flagser flag_matrix min_dimension max_dimension directed
               filtration coeff 0 w) = [c] ∧
          c_approximation c = (-1)%Z).
Proof.
  split; [done|].
  intros w o Hfm Hwf. eexists. split; [by apply flagser_calls|done].
Qed.

(** C9, as amended.  For an n-by-n dense matrix and an n-by-n sparse
    matrix: when the dense matrix is the array form of the sparse one, the
    two vertex arrays handed to the engine are equal; when the sparse
    matrix stores every cell of the dense one, row by row and zeros
    included, the vertex arrays and the edge arrays are equal; and when
    the number of entries stored off the diagonal is not n * (n - 1), the
    edge arrays differ. *)
Theorem dense_and_sparse_ingestion flag_dense flag_sparse min_dimension
    max_dimension directed filtration coeff approximation
    (w_dense w_sparse : world V) n buf coo :
  heap w_dense !! flag_dense = Some (Ndarray n n buf) →
  length buf = n * n →
  heap w_sparse !! flag_sparse = Some (SpMatrix n n coo) →
  ∃ c_dense c_sparse,
    calls_made w_dense
      (flagser flag_dense min_dimension max_dimension directed filtration
         coeff approximation w_dense) = [c_dense] ∧
    calls_made w_sparse
      (flagser flag_sparse min_dimension max_dimension directed filtration
         coeff approximation w_sparse) = [c_sparse] ∧
    (toarray n n coo = buf → c_vertices c_dense = c_vertices c_sparse) ∧
    (coo = store_all n n buf →
     c_vertices c_dense = c_vertices c_sparse ∧
     c_edges c_dense = c_edges c_sparse) ∧
    (length (filter (λ e, e.1.1 ≠ e.1.2) coo) ≠ n * (n - 1) →
     c_edges c_dense ≠ c_edges c_sparse).
Proof.
  intros Hd Hlen Hs. eexists _, _.
  split; [by apply flagser_calls|]. split; [by apply flagser_calls|].
  cbn [call_for c_vertices c_edges]. split; [|split].
  - intros <-. apply vertices_of_toarray.
  - intros ->. split.
    + rewrite <- (toarray_store_all n buf) at 1 by done.
      apply vertices_of_toarray.
    + by rewrite edges_of_store_all.
  - intros Hne Heq. apply Hne. injection Heq as Heq.
    etrans; [|apply (length_edges_of_square n buf Hlen)].
    symmetry. apply (f_equal length Heq).
Qed.

(** C10. A call leaves every object that was in the store as it was, the
    matrix among them, whatever the arguments and however the call ends;
    on a matrix, the store after the call is the store before it followed
    by three fresh arrays, the first of which is the vertex array handed to
    the engine. *)
Theorem flagser_does_not_mutate_its_input flag_matrix min_dimension
    max_dimension directed filtration coeff approximation (w : world V) :
  let run := flagser flag_matrix min_dimension max_dimension directed
               filtration coeff approximation w in
  (∀ l, l < length (heap w) → heap run.2 !! l = heap w !! l) ∧
  (∀ o, heap w !! flag_matrix = Some o →
        well_formed o →
        heap run.2 !! flag_matrix = Some o ∧
        ∃ c mask edges,
          calls_made w run = [c] ∧
          heap run.2 = heap w ++ [Vector (c_vertices c); mask; edges]).
Proof.
  intros run. subst run. split.
  - intros l Hl.
    destruct (flagser_frames (heap w) flag_matrix min_dimension
                max_dimension directed filtration coeff approximation w)
      as [k ->]; [done|].
    by apply lookup_app_l.
  - intros o Hfm Hwf.
    rewrite (flagser_calls _ _ _ _ _ _ _ _ _ Hfm Hwf).
    rewrite (flagser_run _ _ _ _ _ _ _ _ _ Hfm Hwf). simpl.
    split; [by apply lookup_app_l_Some|]. by eexists _, _, _.
Qed.

End Run.
(** ** Saving and loading a flag file *)

Section RoundTrip.
Context {V : Type} `{Scalar V}.
Variable text : Type.
Variable parse : text → V.
Variable print : V → text.

(** Equality of weights within the tolerance, and what is asked of the
    writer and the reader of numbers: a weight written and read again is
    within the tolerance of itself. *)
Variable close : V → V → Prop.
Hypothesis parse_print_close : ∀ v, close (parse (print v)) v.

Local Abbreviation load := (load_weighted_flag text parse).
Local Abbreviation save := (save_weighted_flag text print).
Local Abbreviation diagonal_entries :=
  (zip_with (λ (i : nat) (t : text), (i, i, parse t))).

Lemma stored_at_app (l1 l2 : list (nat * nat * V)) i j :
  stored_at (l1 ++ l2) i j = stored_at l1 i j ++ stored_at l2 i j.
Proof. unfold stored_at. by rewrite filter_app, fmap_app. Qed.

Lemma stored_at_off_diagonal (l : list (nat * nat * V)) i :
  Forall (λ e, e.1.1 ≠ e.1.2) l → stored_at l i i = [].
Proof.
  intros Hl. apply stored_at_nil. intros v Hin.
  rewrite Forall_forall in Hl. by apply (Hl _ Hin).
Qed.

Lemma stored_at_diagonal_before (ts : list text) b n i :
  i < b → stored_at (diagonal_entries (seq b n) ts) i i = [].
Proof.
  intros Hi. apply stored_at_nil. intros v Hin.
  apply list_elem_of_lookup in Hin as [k Hk].
  apply lookup_zip_with_Some in Hk as (j & t & Heq & Hj & _).
  apply lookup_seq in Hj as [-> _]. simplify_eq. lia.
Qed.

Lemma stored_at_diagonal (ts : list text) a k t :
  ts !! k = Some t →
  stored_at (diagonal_entries (seq a (length ts)) ts) (a + k) (a + k) =
  [parse t].
Proof.
  revert a k. induction ts as [|t0 ts IH]; intros a k Hk; [done|].
  simpl. unfold stored_at. rewrite filter_cons. simpl.
  destruct k as [|k]; simplify_eq/=.
  - rewrite decide_True by lia. csimpl. f_equal.
    apply (stored_at_diagonal_before ts (S a) (length ts) (a + 0)). lia.
  - rewrite decide_False by lia.
    replace (a + S k) with (S a + k) by lia. by apply IH.
Qed.

Lemma filter_all {A} (P : A → Prop) `{!∀ x, Decision (P x)} (l : list A) :
  Forall P l → filter P l = l.
Proof.
  induction 1 as [|x l Hx _ IH]; [done|].
  by rewrite filter_cons, decide_True, IH.
Qed.

Lemma filter_none {A} (P : A → Prop) `{!∀ x, Decision (P x)} (l : list A) :
  Forall (λ x, ¬ P x) l → filter P l = [].
Proof.
  induction 1 as [|x l Hx _ IH]; [done|].
  by rewrite filter_cons, decide_False, IH.
Qed.

Lemma diagonal_entries_on_diagonal (ts : list text) a n :
  Forall (λ e : nat * nat * V, ¬ e.1.1 ≠ e.1.2)
    (diagonal_entries (seq a n) ts).
Proof.
  apply Forall_forall. intros e Hin.
  apply list_elem_of_lookup in Hin as [k Hk].
  apply lookup_zip_with_Some in Hk as (j & t & -> & _ & _). simpl. tauto.
Qed.

(** The vertex weights and the edges of the matrix loaded from a file
    whose edge lines join distinct vertices: what the file says. *)
Lemma vertices_of_load (ts : list text) (es : list (nat * nat * text)) :
  Forall (λ e, e.1.1 ≠ e.1.2) es →
  vertices_of (load (FlagFile text ts es)) = parse <$> ts.
Proof.
  intros Hes. unfold load_weighted_flag. cbn [vertex_line edge_lines].
  cbn [vertices_of]. rewrite Nat.min_id.
  apply list_eq. intros i. rewrite !list_lookup_fmap.
  destruct (ts !! i) as [t|] eqn:Ht.
  - rewrite lookup_seq_lt by (by eapply lookup_lt_Some). simpl.
    rewrite stored_at_app.
    rewrite (stored_at_diagonal _ 0 i t Ht : stored_at _ i i = _).
    rewrite stored_at_off_diagonal; [done|].
    apply Forall_fmap. eapply Forall_impl; [exact Hes|by intros e].
  - rewrite lookup_seq_ge; [done|]. by apply lookup_ge_None.
Qed.

Lemma edges_of_load (ts : list text) (es : list (nat * nat * text)) :
  Forall (λ e, e.1.1 ≠ e.1.2) es →
  edges_of (load (FlagFile text ts es)) =
  (λ e, (e.1.1, e.1.2, parse e.2)) <$> es.
Proof.
  intros Hes. unfold load_weighted_flag. cbn [vertex_line edge_lines].
  cbn [edges_of]. rewrite filter_app.
  rewrite (filter_none _ _ (diagonal_entries_on_diagonal _ _ _)). simpl.
  apply filter_all, Forall_fmap. eapply Forall_impl; [exact Hes|by intros e].
Qed.

(** The edge lines saved for a sparse matrix join distinct vertices. *)
Lemma save_edge_lines_off_diagonal r c (coo : list (nat * nat * V)) :
  Forall (λ e, e.1.1 ≠ e.1.2) (edge_lines text (save (SpMatrix r c coo))).
Proof.
  simpl. apply Forall_fmap, Forall_forall. intros e He. simpl.
  by apply list_elem_of_filter in He as [? _].
Qed.

(** C8, on the modelled [load_weighted_flag] and [save_weighted_flag].
    For every flag file, the matrix loaded from it and the matrix loaded
    from the file saved for that matrix have vertex weights that agree
    within the tolerance, one by one, and edges that agree one by one:
    same source, same target, weights within the tolerance. *)
Theorem save_load_round_trip (f : flag_file text) :
  let before := load f in
  let after := load (save before) in
  Forall2 close (vertices_of after) (vertices_of before) ∧
  Forall2 (λ e' e, e'.1 = e.1 ∧ close e'.2 e.2)
    (edges_of after) (edges_of before).
Proof.
  intros before after. subst after.
  assert (∃ n coo, before = SpMatrix n n coo) as (n & coo & Hb)
    by (by eexists _, _).
  clearbody before. subst before.
  pose proof (save_edge_lines_off_diagonal n n coo) as Hoff.
  destruct (save (SpMatrix n n coo)) as [ts es] eqn:Hsave.
  rewrite vertices_of_load, edges_of_load by done.
  injection Hsave as <- <-. split.
  - apply Forall2_fmap_l, Forall2_fmap_l, Forall_Forall2_diag, Forall_forall.
    intros v _. apply parse_print_close.
  - apply Forall2_fmap_l, Forall2_fmap_l, Forall_Forall2_diag, Forall_forall.
    intros [[s t] x] _. split; [done|]. apply parse_print_close.
Qed.

End RoundTrip.

(** ** The claims on examples *)

(** A call with the default arguments, the filtration aside. *)
Local Abbreviation call_on w filtration :=
  (flagser unit idle_engine names 0 0%Z Inf true filtration 2%Z (-1)%Z w).

Example dense_2x2_call :
  calls_made dense_2x2 (call_on dense_2x2 "max"%string) =
  [EngineCall [7; 9]%Z (Triples [(0, 1, 1%Z); (1, 0, 0%Z)]) 0 (Dim (-1))
     true 2 (-1) "max"].
Proof. reflexivity. Qed.

Example sparse_2x2_call :
  calls_made sparse_2x2 (call_on sparse_2x2 "max"%string) =
  [EngineCall [0; 7]%Z (Triples [(0, 1, 5%Z); (1, 0, 0%Z)]) 0 (Dim (-1))
     true 2 (-1) "max"].
Proof. reflexivity. Qed.

(** The boolean matrix of C3: the engine receives triples. *)
Example bool_2x2_call :
  calls_made bool_2x2 (call_on bool_2x2 "max"%string) =
  [EngineCall [false; false] (Triples [(0, 1, true); (1, 0, false)]) 0
     (Dim (-1)) true 2 (-1) "max"].
Proof. reflexivity. Qed.

Lemma edges_dense_every_cell_sparse_stored_only_witness :
  (heap dense_2x2 !! 0 = Some (Ndarray 2 2 [7; 1; 0; 9]%Z) ∧
   length [7; 1; 0; 9]%Z = 2 * 2 ∧
   ∃ es, c_edges <$> calls_made dense_2x2 (call_on dense_2x2 "max"%string) =
           [Triples es] ∧
         length es = 2 * (2 - 1) ∧
         ∀ i j v, (i, j, v) ∈ es ↔
                  i < 2 ∧ j < 2 ∧ i ≠ j ∧
                  v = nth (i * 2 + j) [7; 1; 0; 9]%Z np_zero) ∧
  (heap sparse_2x2 !! 0 =
     Some (SpMatrix 2 2
             [(0, 1, 5%Z); (1, 1, 3%Z); (1, 1, 4%Z); (1, 0, 0%Z)]) ∧
   ∃ es, c_edges <$> calls_made sparse_2x2
           (call_on sparse_2x2 "max"%string) = [Triples es] ∧
         es = filter (λ e, e.1.1 ≠ e.1.2)
                [(0, 1, 5%Z); (1, 1, 3%Z); (1, 1, 4%Z); (1, 0, 0%Z)] ∧
         ∀ i j v, (i, j, v) ∈ es ↔
                  (i, j, v) ∈ [(0, 1, 5%Z); (1, 1, 3%Z); (1, 1, 4%Z);
                               (1, 0, 0%Z)] ∧ i ≠ j).
Proof.
  split.
  - split; [reflexivity|]. split; [reflexivity|].
    apply (proj1 (edges_dense_every_cell_sparse_stored_only unit idle_engine
                    names 0 0%Z Inf true "max"%string 2%Z (-1)%Z dense_2x2));
      reflexivity.
  - split; [reflexivity|].
    apply (proj2 (edges_dense_every_cell_sparse_stored_only unit idle_engine
                    names 0 0%Z Inf true "max"%string 2%Z (-1)%Z sparse_2x2)
             2 2).
    reflexivity.
Defined.

Lemma no_self_loop_and_diagonal_as_vertices_witness :
  (heap dense_2x2 !! 0 = Some (Ndarray 2 2 [7; 1; 0; 9]%Z) ∧
   length [7; 1; 0; 9]%Z = 2 * 2 ∧
   ∃ c es, calls_made dense_2x2 (call_on dense_2x2 "max"%string) = [c] ∧
           c_edges c = Triples es ∧
           (∀ i j v, (i, j, v) ∈ es → i ≠ j) ∧
           length (c_vertices c) = 2 ∧
           ∀ i, i < 2 →
                c_vertices c !! i =
                  Some (nth (i * 2 + i) [7; 1; 0; 9]%Z np_zero)) ∧
  (heap sparse_2x2 !! 0 =
     Some (SpMatrix 2 2
             [(0, 1, 5%Z); (1, 1, 3%Z); (1, 1, 4%Z); (1, 0, 0%Z)]) ∧
   ∃ c es, calls_made sparse_2x2 (call_on sparse_2x2 "max"%string) = [c] ∧
           c_edges c = Triples es ∧
           (∀ i j v, (i, j, v) ∈ es → i ≠ j) ∧
           length (c_vertices c) = 2).
Proof.
  split.
  - split; [reflexivity|]. split; [reflexivity|].
    apply (proj1 (no_self_loop_and_diagonal_as_vertices unit idle_engine
                    names 0 0%Z Inf true "max"%string 2%Z (-1)%Z dense_2x2));
      reflexivity.
  - split; [reflexivity|].
    destruct (proj2 (no_self_loop_and_diagonal_as_vertices unit idle_engine
                       names 0 0%Z Inf true "max"%string 2%Z (-1)%Z
                       sparse_2x2) 2 _ eq_refl)
      as (c & es & Hc & He & Hloop & Hlen & _).
    exists c, es. repeat split; assumption.
Defined.

Lemma boolean_matrix_handed_triples_witness :
  dtype_of (V := bool) = dt_bool ∧
  heap bool_2x2 !! 0 = Some (Ndarray 2 2 [false; true; false; false]) ∧
  well_formed (Ndarray 2 2 [false; true; false; false]) ∧
  ∃ es, c_edges <$> calls_made bool_2x2 (call_on bool_2x2 "max"%string) =
          [Triples es].
Proof.
  split; [reflexivity|]. split; [reflexivity|]. split; [reflexivity|].
  apply (boolean_matrix_handed_triples unit idle_engine names 0 0%Z Inf true
           "max"%string 2%Z (-1)%Z bool_2x2
           (Ndarray 2 2 [false; true; false; false]));
    reflexivity.
Defined.

Lemma unrecognized_filtration_falls_back_to_max_witness :
  ("maxx"%string ∉ names) ∧
  heap sparse_2x2 !! 0 =
    Some (SpMatrix 2 2
            [(0, 1, 5%Z); (1, 1, 3%Z); (1, 1, 4%Z); (1, 0, 0%Z)]) ∧
  (∃ c, calls_made sparse_2x2 (call_on sparse_2x2 "maxx"%string) = [c] ∧
        c_filtration c = "max"%string ∧
        (call_on sparse_2x2 "maxx"%string).1 =
          marshal unit (engine_result unit idle_engine c)) ∧
  stdout (call_on sparse_2x2 "maxx"%string).2 =
    stdout sparse_2x2 ++
    ["Unrecognized maxx filtration, using max"%string;
     ("Available algorithms : " +:+ py_repr_list names)%string] ∧
  (call_on sparse_2x2 "maxx"%string).1 =
    (call_on sparse_2x2 "max"%string).1 ∧
  heap (call_on sparse_2x2 "maxx"%string).2 =
    heap (call_on sparse_2x2 "max"%string).2 ∧
  calls_made sparse_2x2 (call_on sparse_2x2 "maxx"%string) =
    calls_made sparse_2x2 (call_on sparse_2x2 "max"%string).
Proof.
  assert (Hnot : "maxx"%string ∉ names).
  { apply (bool_decide_unpack _). vm_compute. exact I. }
  split; [exact Hnot|]. split; [reflexivity|].
  apply (unrecognized_filtration_falls_back_to_max unit idle_engine names 0
           0%Z Inf true "maxx"%string 2%Z (-1)%Z sparse_2x2
           (SpMatrix 2 2
              [(0, 1, 5%Z); (1, 1, 3%Z); (1, 1, 4%Z); (1, 0, 0%Z)]));
    [exact Hnot|reflexivity|exact I].
Defined.

(** C5, the claim refuted: a sparse matrix with one row and two columns is
    not rejected.  The call returns a dictionary, after the engine was
    called with one vertex and the edge from 0 to 1. *)
Lemma nonsquare_matrix_is_not_rejected :
  shape_of (SpMatrix 1 2 [(0, 1, 5%Z)]) = (1, 2) ∧
  heap sparse_1x2 !! 0 = Some (SpMatrix 1 2 [(0, 1, 5%Z)]) ∧
  (call_on sparse_1x2 "max"%string).1 = inr (Out unit [] [] [] 0%Z) ∧
  calls_made sparse_1x2 (call_on sparse_1x2 "max"%string) =
    [EngineCall [0%Z] (Triples [(0, 1, 5%Z)]) 0 (Dim (-1)) true 2 (-1)
       "max"] ∧
  ¬ ∃ e, (call_on sparse_1x2 "max"%string).1 = inl e ∧
         calls_made sparse_1x2 (call_on sparse_1x2 "max"%string) = [].
Proof.
  split; [reflexivity|]. split; [reflexivity|]. split; [reflexivity|].
  split; [reflexivity|]. intros (e & He & _). discriminate He.
Qed.

Lemma nonsquare_matrix_reaches_engine_witness :
  heap sparse_1x2 !! 0 = Some (SpMatrix 1 2 [(0, 1, 5%Z)]) ∧
  well_formed (SpMatrix 1 2 [(0, 1, 5%Z)]) ∧
  shape_of (SpMatrix 1 2 [(0, 1, 5%Z)]) = (1, 2) ∧
  1 ≠ 2 ∧
  ∃ call, calls_made sparse_1x2 (call_on sparse_1x2 "max"%string) = [call] ∧
          length (c_vertices call) = 1 `min` 2 ∧
          (call_on sparse_1x2 "max"%string).1 =
            marshal unit (engine_result unit idle_engine call).
Proof.
  split; [reflexivity|]. split; [exact I|]. split; [reflexivity|].
  split; [lia|].
  apply (nonsquare_matrix_reaches_engine unit idle_engine names 0 0%Z Inf
           true "max"%string 2%Z (-1)%Z sparse_1x2
           (SpMatrix 1 2 [(0, 1, 5%Z)]) 1 2);
    [reflexivity|exact I|reflexivity|lia].
Defined.

Lemma max_dimension_sentinel_witness :
  heap dense_2x2 !! 0 = Some (Ndarray 2 2 [7; 1; 0; 9]%Z) ∧
  well_formed (Ndarray 2 2 [7; 1; 0; 9]%Z) ∧
  (∃ c, calls_made dense_2x2 (call_on dense_2x2 "max"%string) = [c] ∧
        c_max_dimension c = Dim (-1)) ∧
  (∃ c, calls_made dense_2x2
          (flagser unit idle_engine names 0 0%Z (Dim 3) true "max"%string
             2%Z (-1)%Z dense_2x2) = [c] ∧
        c_max_dimension c = Dim 3).
Proof.
  split; [reflexivity|]. split; [reflexivity|]. split.
  - destruct (max_dimension_sentinel unit idle_engine names 0 0%Z Inf true
                "max"%string 2%Z (-1)%Z dense_2x2
                (Ndarray 2 2 [7; 1; 0; 9]%Z) eq_refl eq_refl)
      as (c & Hc & Hinf & _).
    exists c. split; [exact Hc|]. apply Hinf. reflexivity.
  - destruct (max_dimension_sentinel unit idle_engine names 0 0%Z (Dim 3)
                true "max"%string 2%Z (-1)%Z dense_2x2
                (Ndarray 2 2 [7; 1; 0; 9]%Z) eq_refl eq_refl)
      as (c & Hc & _ & Hint & _).
    exists c. split; [exact Hc|]. apply Hint. discriminate.
Defined.

Lemma approximation_zero_is_exact_witness :
  flagser unit idle_engine names 0 0%Z Inf true "max"%string 2%Z 0%Z
    dense_2x2 =
  flagser unit idle_engine names 0 0%Z Inf true "max"%string 2%Z (-1)%Z
    dense_2x2 ∧
  heap dense_2x2 !! 0 = Some (Ndarray 2 2 [7; 1; 0; 9]%Z) ∧
  well_formed (Ndarray 2 2 [7; 1; 0; 9]%Z) ∧
  ∃ c, calls_made dense_2x2
         (flagser unit idle_engine names 0 0%Z Inf true "max"%string 2%Z 0%Z
            dense_2x2) = [c] ∧
       c_approximation c = (-1)%Z.
Proof.
  split.
  - apply (proj1 (approximation_zero_is_exact unit idle_engine names 0 0%Z
                    Inf true "max"%string 2%Z)).
  - split; [reflexivity|]. split; [reflexivity|].
    apply (proj2 (approximation_zero_is_exact unit idle_engine names 0 0%Z
                    Inf true "max"%string 2%Z) dense_2x2
             (Ndarray 2 2 [7; 1; 0; 9]%Z)); reflexivity.
Defined.

(** C9, the claim refuted: the dense matrix [[0, 1], [0, 0]] is the array
    form of the sparse matrix that stores the one entry (0, 1) -> 1, so the
    two have the same non-zero entries; the vertex arrays are equal, but
    the dense matrix gives two edges and the sparse matrix one. *)
Lemma dense_and_sparse_edges_differ :
  toarray 2 2 [(0, 1, 1%Z)] = [0; 1; 0; 0]%Z ∧
  c_vertices <$> calls_made dense_one_edge
    (call_on dense_one_edge "max"%string) =
  c_vertices <$> calls_made sparse_one_edge
    (call_on sparse_one_edge "max"%string) ∧
  c_edges <$> calls_made dense_one_edge
    (call_on dense_one_edge "max"%string) =
    [Triples [(0, 1, 1%Z); (1, 0, 0%Z)]] ∧
  c_edges <$> calls_made sparse_one_edge
    (call_on sparse_one_edge "max"%string) =
    [Triples [(0, 1, 1%Z)]] ∧
  c_edges <$> calls_made dense_one_edge
    (call_on dense_one_edge "max"%string) ≠
  c_edges <$> calls_made sparse_one_edge
    (call_on sparse_one_edge "max"%string).
Proof.
  split; [reflexivity|]. split; [reflexivity|]. split; [reflexivity|].
  split; [reflexivity|]. discriminate.
Qed.

Lemma dense_and_sparse_ingestion_witness :
  heap dense_one_edge !! 0 = Some (Ndarray 2 2 [0; 1; 0; 0]%Z) ∧
  length [0; 1; 0; 0]%Z = 2 * 2 ∧
  heap sparse_one_edge !! 0 = Some (SpMatrix 2 2 [(0, 1, 1%Z)]) ∧
  ∃ c_dense c_sparse,
    calls_made dense_one_edge (call_on dense_one_edge "max"%string) =
      [c_dense] ∧
    calls_made sparse_one_edge (call_on sparse_one_edge "max"%string) =
      [c_sparse] ∧
    c_vertices c_dense = c_vertices c_sparse ∧
    c_edges c_dense ≠ c_edges c_sparse.
Proof.
  split; [reflexivity|]. split; [reflexivity|]. split; [reflexivity|].
  destruct (dense_and_sparse_ingestion unit idle_engine names 0 0 0%Z Inf
              true "max"%string 2%Z (-1)%Z dense_one_edge sparse_one_edge 2
              [0; 1; 0; 0]%Z [(0, 1, 1%Z)] eq_refl eq_refl eq_refl)
    as (cd & cs & Hd & Hs & Hv & _ & He).
  exists cd, cs. split; [exact Hd|]. split; [exact Hs|]. split.
  - apply Hv. reflexivity.
  - apply He. simpl. lia.
Defined.

Lemma flagser_does_not_mutate_its_input_witness :
  heap sparse_2x2 !! 0 =
    Some (SpMatrix 2 2
            [(0, 1, 5%Z); (1, 1, 3%Z); (1, 1, 4%Z); (1, 0, 0%Z)]) ∧
  well_formed
    (SpMatrix 2 2 [(0, 1, 5%Z); (1, 1, 3%Z); (1, 1, 4%Z); (1, 0, 0%Z)]) ∧
  (∀ l, l < length (heap sparse_2x2) →
        heap (call_on sparse_2x2 "max"%string).2 !! l =
        heap sparse_2x2 !! l) ∧
  heap (call_on sparse_2x2 "max"%string).2 !! 0 =
    Some (SpMatrix 2 2
            [(0, 1, 5%Z); (1, 1, 3%Z); (1, 1, 4%Z); (1, 0, 0%Z)]).
Proof.
  split; [reflexivity|]. split; [exact I|].
  destruct (flagser_does_not_mutate_its_input unit idle_engine names 0 0%Z
              Inf true "max"%string 2%Z (-1)%Z sparse_2x2) as [Hold Hnew].
  split; [exact Hold|].
  apply (Hnew _ eq_refl I).
Defined.

(** Numbers written out in full, and the tolerance zero. *)
Lemma save_load_round_trip_witness :
  (∀ v : Z, id (id v) = v) ∧
  let before := load_weighted_flag Z id
                  (FlagFile Z [7; 9]%Z [(0, 1, 5%Z); (1, 0, 0%Z)]) in
  let after := load_weighted_flag Z id (save_weighted_flag Z id before) in
  Forall2 eq (vertices_of after) (vertices_of before) ∧
  Forall2 (λ e' e, e'.1 = e.1 ∧ e'.2 = e.2)
    (edges_of after) (edges_of before).
Proof.
  split; [reflexivity|].
  apply (save_load_round_trip Z id id eq (λ v, eq_refl)
           (FlagFile Z [7; 9]%Z [(0, 1, 5%Z); (1, 0, 0%Z)])).
Defined.

Example load_flag_file :
  load_weighted_flag Z id (FlagFile Z [7; 9]%Z [(0, 1, 5%Z); (1, 0, 0%Z)]) =
  SpMatrix 2 2 [(0, 0, 7%Z); (1, 1, 9%Z); (0, 1, 5%Z); (1, 0, 0%Z)].
Proof. reflexivity. Qed.

(** ** Further properties of [flagser] *)

Section Further.
Context {V : Type} `{Scalar V}.
Variable diagram : Type.
Variable compute_homology :
  list V → edge_array V → Z → pydim → bool → Z → Z → string
  → list (homology diagram).
Variable implemented_filtrations : list string.

Local Abbreviation flagser := (flagser diagram compute_homology
                                 implemented_filtrations).
Local Abbreviation call_for := (call_for implemented_filtrations).
Local Abbreviation engine_result := (engine_result diagram compute_homology).
Local Abbreviation flagser_run := (flagser_run diagram compute_homology
                                     implemented_filtrations).
Local Abbreviation flagser_calls := (flagser_calls diagram compute_homology
                                       implemented_filtrations).
Local Abbreviation edges_of_square :=
  (edges_of_square diagram compute_homology).
Local Abbreviation length_edges_of_square :=
  (length_edges_of_square diagram compute_homology).

(** X1. The dictionary returned is read off the first element of the list
    the engine returns, and off nothing else: its four entries are the
    persistence diagrams, the cell counts, the Betti numbers and the Euler
    characteristic of that element, whatever follows it in the list. *)
Theorem result_reads_first_homology flag_matrix min_dimension max_dimension
    directed filtration coeff approximation (w : world V) (o : object V) :
  heap w !! flag_matrix = Some o →
  well_formed o →
  let run := flagser flag_matrix min_dimension max_dimension directed
               filtration coeff approximation w in
  ∃ c, calls_made w run = [c] ∧
       ∀ h rest, engine_result c = h :: rest →
                 run.1 = inr (Out diagram (get_persistence_diagram diagram h)
                                (get_cell_count diagram h)
                                (get_betti_numbers diagram h)
                                (get_euler_characteristic diagram h)).
Proof.
  intros Hfm Hwf run. subst run.
  rewrite (flagser_calls _ _ _ _ _ _ _ _ _ Hfm Hwf).
  rewrite (flagser_run _ _ _ _ _ _ _ _ _ Hfm Hwf). simpl.
  eexists. split; [done|]. intros h rest Hres. by rewrite Hres.
Qed.

(** X2. When the engine returns an empty list the call raises IndexError,
    and it does so after the fact: the engine has been called, the warning
    for an unknown filtration has been printed, and the three arrays are
    in the store. *)
Theorem empty_engine_result_raises_index_error flag_matrix min_dimension
    max_dimension directed filtration coeff approximation (w : world V)
    (o : object V) :
  heap w !! flag_matrix = Some o →
  well_formed o →
  let run := flagser flag_matrix min_dimension max_dimension directed
               filtration coeff approximation w in
  ∃ c, calls_made w run = [c] ∧
       (engine_result c = [] → run.1 = inl IndexError) ∧
       (run.1 = inl IndexError → engine_result c = []) ∧
       length (heap run.2) = length (heap w) + 3 ∧
       stdout run.2 = stdout w ++ warning implemented_filtrations filtration.
Proof.
  intros Hfm Hwf run. subst run.
  rewrite (flagser_calls _ _ _ _ _ _ _ _ _ Hfm Hwf).
  rewrite (flagser_run _ _ _ _ _ _ _ _ _ Hfm Hwf). simpl.
  eexists. split; [done|]. repeat split.
  - by intros ->.
  - by destruct (engine_result _).
  - rewrite length_app. simpl. lia.
Qed.

(** X3. [min_dimension], [directed] and [coeff] reach the engine as they
    were given, whatever their values: the function checks none of them, a
    negative minimum dimension and a coefficient that is not prime
    included. *)
Theorem scalars_handed_unchecked flag_matrix min_dimension max_dimension
    directed filtration coeff approximation (w : world V) (o : object V) :
  heap w !! flag_matrix = Some o →
  well_formed o →
  ∃ c, calls_made w
         (flagser flag_matrix min_dimension max_dimension directed
            filtration coeff approximation w) = [c] ∧
       c_min_dimension c = min_dimension ∧
       c_directed c = directed ∧
       c_coeff c = coeff.
Proof.
  intros Hfm Hwf. eexists. split; [by apply flagser_calls|done].
Qed.

(** X4. A filtration name that is implemented is handed to the engine as
    it is, and nothing is printed. *)
Theorem implemented_filtration_is_silent flag_matrix min_dimension
    max_dimension directed filtration coeff approximation (w : world V)
    (o : object V) :
  filtration ∈ implemented_filtrations →
  heap w !! flag_matrix = Some o →
  well_formed o →
  let run := flagser flag_matrix min_dimension max_dimension directed
               filtration coeff approximation w in
  stdout run.2 = stdout w ∧
  ∃ c, calls_made w run = [c] ∧ c_filtration c = filtration.
Proof.
  intros Hf Hfm Hwf run. subst run.
  rewrite (flagser_calls _ _ _ _ _ _ _ _ _ Hfm Hwf).
  rewrite (flagser_run _ _ _ _ _ _ _ _ _ Hfm Hwf). simpl.
  unfold warning, call_for, effective. rewrite !bool_decide_true by done.
  split; [by rewrite app_nil_r|]. by eexists.
Qed.

(** X5. An approximation other than 0 reaches the engine as it was given:
    a positive bound, -1, and any other negative number alike. *)
Theorem nonzero_approximation_unchanged flag_matrix min_dimension
    max_dimension directed filtration coeff approximation (w : world V)
    (o : object V) :
  approximation ≠ 0%Z →
  heap w !! flag_matrix = Some o →
  well_formed o →
  ∃ c, calls_made w
         (flagser flag_matrix min_dimension max_dimension directed
            filtration coeff approximation w) = [c] ∧
       c_approximation c = approximation.
Proof.
  intros Hap Hfm Hwf. eexists. split; [by apply flagser_calls|].
  cbn [call_for c_approximation]. unfold py_not.
  by destruct (Z.eqb_spec approximation 0).
Qed.

(** *** The edges of a dense matrix, square or not *)

Lemma select_fmap_prefix {A B} (f : A → B) (p : A → bool) (l l' : list A) :
  select (f <$> (l ++ l')) (p <$> l) = f <$> filter (λ x, p x) l.
Proof.
  induction l as [|x l IH]; csimpl; [by rewrite select_nil_r|].
  rewrite filter_cons. destruct (p x); csimpl; by rewrite IH.
Qed.

(** The mask has [m * m] entries, [m] the smaller side; the cells read are
    the first [m * m] of the buffer, each with the row and the column it
    has in the matrix. *)
Lemma edges_of_rectangular r c (buf : list V) :
  length buf = r * c →
  edges_of (Ndarray r c buf) =
  (λ k, (k / c, k mod c, nth k buf np_zero)) <$>
    filter (λ k, k / (r `min` c) ≠ k mod (r `min` c))
      (seq 0 ((r `min` c) * (r `min` c))).
Proof.
  intros Hlen. unfold edges_of, mask_of, np_logical_not.
  rewrite flat_indices_0, flat_indices_1, flat_eye.
  rewrite (buffer_by_index buf) at 1. rewrite Hlen.
  rewrite !zip_fmap_same, <- list_fmap_compose.
  set (m := r `min` c).
  assert (Hle : m * m ≤ r * c) by (subst m; nia).
  replace (r * c) with (m * m + (r * c - m * m)) by lia.
  rewrite seq_app.
  rewrite (select_fmap_prefix _ (negb ∘ (λ k, k / m =? k mod m))).
  f_equal. apply list_filter_iff. intros k. simpl.
  destruct (Nat.eqb_spec (k / m) (k mod m)); simpl; tauto.
Qed.

(** What [filter] keeps of [seq] is increasing. *)
Lemma filter_seq_increasing (P : nat → Prop) `{!∀ k, Decision (P k)} a n
    i j x y :
  i < j →
  filter P (seq a n) !! i = Some x →
  filter P (seq a n) !! j = Some y →
  x < y.
Proof.
  revert a i j. induction n as [|n IH]; intros a i j Hij Hx Hy; [done|].
  simpl in Hx, Hy. rewrite filter_cons in Hx, Hy.
  destruct (decide (P a)); [|by eapply IH].
  destruct j as [|j]; [lia|]. simpl in Hy.
  destruct i as [|i]; simpl in Hx.
  - simplify_eq. apply list_elem_of_lookup_2 in Hy.
    apply list_elem_of_filter in Hy as [_ Hy].
    apply elem_of_seq in Hy. lia.
  - eapply (IH (S a) i j); [lia|done..].
Qed.

(** X6. A dense matrix that is not square is read through a mask made for
    the square of its smaller side m: the engine receives m * (m - 1)
    edges, taken from the first m * m cells of the matrix in row-major
    order, namely the cells whose flat index k has k / m <> k mod m; each
    comes with the row k / c and the column k mod c it has in the matrix
    of c columns.  (This is how a flat iterator answers a boolean mask
    shorter than itself.) *)
Theorem dense_rectangular_edges flag_matrix min_dimension max_dimension
    directed filtration coeff approximation (w : world V) r c buf :
  heap w !! flag_matrix = Some (Ndarray r c buf) →
  length buf = r * c →
  ∃ es, c_edges <$> calls_made w
          (flagser flag_matrix min_dimension max_dimension directed
             filtration coeff approximation w) = [Triples es] ∧
        es = (λ k, (k / c, k mod c, nth k buf np_zero)) <$>
               filter (λ k, k / (r `min` c) ≠ k mod (r `min` c))
                 (seq 0 ((r `min` c) * (r `min` c))) ∧
        length es = (r `min` c) * ((r `min` c) - 1).
Proof.
  intros Hfm Hlen. exists (edges_of (Ndarray r c buf)).
  rewrite (flagser_calls _ _ _ _ _ _ _ _ _ Hfm Hlen).
  split; [done|]. rewrite edges_of_rectangular by done.
  split; [done|]. rewrite length_fmap. by apply count_off_diagonal.
Qed.

(** X7. The edges of a dense n-by-n matrix come in row-major order, each
    ordered pair of vertices once: of two edges, the earlier one has the
    smaller source, or the same source and the smaller target. *)
Theorem dense_edges_in_row_major_order flag_matrix min_dimension
    max_dimension directed filtration coeff approximation (w : world V)
    n buf :
  heap w !! flag_matrix = Some (Ndarray n n buf) →
  length buf = n * n →
  ∃ es, c_edges <$> calls_made w
          (flagser flag_matrix min_dimension max_dimension directed
             filtration coeff approximation w) = [Triples es] ∧
        (∀ a b e e', a < b → es !! a = Some e → es !! b = Some e' →
                     e.1.1 < e'.1.1 ∨ (e.1.1 = e'.1.1 ∧ e.1.2 < e'.1.2)) ∧
        NoDup es.*1.
Proof.
  intros Hfm Hlen. exists (edges_of (Ndarray n n buf)).
  rewrite (flagser_calls _ _ _ _ _ _ _ _ _ Hfm Hlen).
  split; [done|]. rewrite edges_of_square by done.
  assert (Hord : ∀ a b e e',
            a < b →
            ((λ k, (k / n, k mod n, nth k buf np_zero)) <$>
               filter (λ k, k / n ≠ k mod n) (seq 0 (n * n))) !! a = Some e →
            ((λ k, (k / n, k mod n, nth k buf np_zero)) <$>
               filter (λ k, k / n ≠ k mod n) (seq 0 (n * n))) !! b = Some e' →
            e.1.1 < e'.1.1 ∨ (e.1.1 = e'.1.1 ∧ e.1.2 < e'.1.2)).
  { intros a b e e' Hab He He'.
    apply list_lookup_fmap_Some in He as (k & -> & Hk).
    apply list_lookup_fmap_Some in He' as (k' & -> & Hk').
    pose proof (filter_seq_increasing _ _ _ _ _ _ _ Hab Hk Hk') as Hlt.
    simpl. assert (n ≠ 0) by (intros ->; simpl in Hk; done).
    pose proof (Nat.div_mod k n). pose proof (Nat.div_mod k' n).
    pose proof (Nat.mod_upper_bound k n).
    pose proof (Nat.mod_upper_bound k' n).
    destruct (decide (k / n = k' / n)) as [Heq|Hne]; [right|left].
    - split; [done|]. rewrite Heq in *. lia.
    - assert (k / n ≤ k' / n) by (apply Nat.Div0.div_le_mono; lia). lia. }
  split; [exact Hord|].
  apply NoDup_alt. intros a b p Ha Hb.
  apply list_lookup_fmap_Some in Ha as (e & -> & He).
  apply list_lookup_fmap_Some in Hb as (e' & Hp & He').
  destruct (Nat.lt_trichotomy a b) as [Hlt|[->|Hlt]]; [|done|].
  - destruct (Hord _ _ _ _ Hlt He He') as [?|[? ?]];
      destruct e as [[? ?] ?], e' as [[? ?] ?]; simplify_eq/=; lia.
  - destruct (Hord _ _ _ _ Hlt He' He) as [?|[? ?]];
      destruct e as [[? ?] ?], e' as [[? ?] ?]; simplify_eq/=; lia.
Qed.

(** X8. A dense matrix describes a graph without edges only when it has at
    most one vertex: for an n-by-n dense matrix the edge list handed to the
    engine is empty exactly when n <= 1, whatever the cells hold. *)
Theorem dense_edges_empty_iff flag_matrix min_dimension max_dimension
    directed filtration coeff approximation (w : world V) n buf :
  heap w !! flag_matrix = Some (Ndarray n n buf) →
  length buf = n * n →
  c_edges <$> calls_made w
    (flagser flag_matrix min_dimension max_dimension directed filtration
       coeff approximation w) = [Triples []] ↔ n ≤ 1.
Proof.
  intros Hfm Hlen.
  rewrite (flagser_calls _ _ _ _ _ _ _ _ _ Hfm Hlen). simpl.
  pose proof (length_edges_of_square n buf Hlen) as Hn.
  split.
  - intros Heq. injection Heq as Heq. apply (f_equal length) in Heq.
    change (length (edges_of (Ndarray n n buf)) = 0) in Heq. nia.
  - intros Hle. do 2 f_equal. apply length_zero_iff_nil.
    change (length (edges_of (Ndarray n n buf)) = 0). nia.
Qed.

(** X9. For a sparse matrix the edge list is empty exactly when every
    stored entry is on the diagonal; the vertex weights of a matrix with no
    stored entry at all are n zeros. *)
Theorem sparse_edges_empty_iff flag_matrix min_dimension max_dimension
    directed filtration coeff approximation (w : world V) r c coo :
  heap w !! flag_matrix = Some (SpMatrix r c coo) →
  (c_edges <$> calls_made w
     (flagser flag_matrix min_dimension max_dimension directed filtration
        coeff approximation w) = [Triples []] ↔
   Forall (λ e, e.1.1 = e.1.2) coo) ∧
  (coo = [] →
   c_vertices <$> calls_made w
     (flagser flag_matrix min_dimension max_dimension directed filtration
        coeff approximation w) = [replicate (r `min` c) np_zero]).
Proof.
  intros Hfm.
  rewrite (flagser_calls _ _ _ _ _ _ _ _ _ Hfm I). simpl. split.
  - split.
    + intros Heq. injection Heq as Heq.
      apply Forall_forall. intros e He.
      destruct (decide (e.1.1 = e.1.2)) as [|Hne]; [done|].
      assert (e ∈ filter (λ e, e.1.1 ≠ e.1.2) coo) as Hin
        by (by apply list_elem_of_filter).
      rewrite Heq in Hin. by apply elem_of_nil in Hin.
    + intros Hall. do 2 f_equal. apply filter_none.
      eapply Forall_impl; [exact Hall|]. intros e He Hne. by apply Hne.
  - intros ->. f_equal.
    apply list_eq. intros i. rewrite list_lookup_fmap.
    destruct (decide (i < r `min` c)).
    + by rewrite lookup_seq_lt, lookup_replicate_2.
    + rewrite lookup_seq_ge by lia.
      symmetry. apply lookup_replicate_None. lia.
Qed.

(** X10. The result and the call of the engine depend on the matrix and
    on the scalar arguments only: not on the location of the matrix, nor
    on what else the store holds, what has been printed or which calls
    were made before.  In particular a second call, made in the world the
    first call left, returns what the first returned and calls the engine
    with the same arguments. *)
Theorem result_depends_on_matrix_only min_dimension max_dimension directed
    filtration coeff approximation flag_matrix flag_matrix'
    (w w' : world V) (o : object V) :
  heap w !! flag_matrix = Some o →
  heap w' !! flag_matrix' = Some o →
  well_formed o →
  let run := flagser flag_matrix min_dimension max_dimension directed
               filtration coeff approximation w in
  let run' := flagser flag_matrix' min_dimension max_dimension directed
                filtration coeff approximation w' in
  let again := flagser flag_matrix min_dimension max_dimension directed
                 filtration coeff approximation run.2 in
  (run'.1 = run.1 ∧ calls_made w' run' = calls_made w run) ∧
  (again.1 = run.1 ∧ calls_made run.2 again = calls_made w run ∧
   engine_log again.2 =
     engine_log w ++ calls_made w run ++ calls_made w run).
Proof.
  intros Hfm Hfm' Hwf run run' again.
  assert (Hkept : heap run.2 !! flag_matrix = Some o).
  { subst run. rewrite (flagser_run _ _ _ _ _ _ _ _ _ Hfm Hwf). simpl.
    by apply lookup_app_l_Some. }
  subst again run'.
  rewrite (flagser_calls _ _ _ _ _ _ _ _ _ Hkept Hwf).
  rewrite (flagser_run _ _ _ _ _ _ _ _ _ Hkept Hwf).
  rewrite (flagser_calls _ _ _ _ _ _ _ _ _ Hfm' Hwf).
  rewrite (flagser_run _ _ _ _ _ _ _ _ _ Hfm' Hwf).
  subst run.
  rewrite (flagser_calls _ _ _ _ _ _ _ _ _ Hfm Hwf).
  rewrite (flagser_run _ _ _ _ _ _ _ _ _ Hfm Hwf). simpl.
  by rewrite <- app_assoc.
Qed.

(** X11. Given a one-dimensional array the call raises ValueError at its
    first line, where the diagonal is taken: the engine is not called,
    nothing is printed and nothing is allocated. *)
Theorem one_dimensional_array_raises flag_matrix min_dimension max_dimension
    directed filtration coeff approximation (w : world V) (o : object V) :
  heap w !! flag_matrix = Some o →
  (∃ buf, o = Vector buf) ∨ (∃ buf, o = BoolArray buf) →
  flagser flag_matrix min_dimension max_dimension directed filtration coeff
    approximation w = (inl ValueError, w).
Proof.
  intros Hfm Ho. unfold flagser, mbind, py_bind, deref. simpl.
  rewrite Hfm. by destruct Ho as [[buf ->]|[buf ->]].
Qed.

(** X12. Entries of a sparse matrix stored at one position off the
    diagonal stay separate edges: the weights of the edges from i to j
    handed to the engine are the values stored at (i, j), each one and in
    the order of storage.  (On the diagonal such entries are summed into
    one vertex weight.) *)
Theorem sparse_duplicates_stay_separate flag_matrix min_dimension
    max_dimension directed filtration coeff approximation (w : world V)
    r c coo :
  heap w !! flag_matrix = Some (SpMatrix r c coo) →
  ∃ es, c_edges <$> calls_made w
          (flagser flag_matrix min_dimension max_dimension directed
             filtration coeff approximation w) = [Triples es] ∧
        (∀ i j, i ≠ j → stored_at es i j = stored_at coo i j) ∧
        length es + length (filter (λ e, e.1.1 = e.1.2) coo) = length coo.
Proof.
  intros Hfm. exists (edges_of (SpMatrix r c coo)).
  rewrite (flagser_calls _ _ _ _ _ _ _ _ _ Hfm I).
  split; [done|]. split.
  - intros i j Hij. unfold stored_at. simpl. f_equal.
    apply list_filter_filter_l. intros e [? ?]. congruence.
  - simpl. clear Hfm. induction coo as [|e coo IH]; [done|].
    rewrite !filter_cons.
    destruct (decide (e.1.1 = e.1.2)).
    + rewrite decide_False by (by intros ?). simpl. lia.
    + rewrite decide_True by done. simpl. lia.
Qed.

(** X13. For dense n-by-n matrices the vertex weights depend on the
    diagonal only and the edges on the other cells only: two matrices
    with the same diagonal give the same vertex array, and two matrices
    that agree off the diagonal give the same edge array. *)
Theorem dense_diagonal_and_rest_are_separate min_dimension max_dimension
    directed filtration coeff approximation flag_matrix flag_matrix'
    (w w' : world V) n buf buf' :
  heap w !! flag_matrix = Some (Ndarray n n buf) →
  heap w' !! flag_matrix' = Some (Ndarray n n buf') →
  length buf = n * n →
  length buf' = n * n →
  let run := flagser flag_matrix min_dimension max_dimension directed
               filtration coeff approximation w in
  let run' := flagser flag_matrix' min_dimension max_dimension directed
                filtration coeff approximation w' in
  ((∀ i, i < n → nth (i * n + i) buf np_zero = nth (i * n + i) buf' np_zero) →
   c_vertices <$> calls_made w run = c_vertices <$> calls_made w' run') ∧
  ((∀ i j, i < n → j < n → i ≠ j →
           nth (i * n + j) buf np_zero = nth (i * n + j) buf' np_zero) →
   c_edges <$> calls_made w run = c_edges <$> calls_made w' run').
Proof.
  intros Hfm Hfm' Hlen Hlen' run run'. subst run run'.
  rewrite (flagser_calls _ _ _ _ _ _ _ _ _ Hfm Hlen).
  rewrite (flagser_calls _ _ _ _ _ _ _ _ _ Hfm' Hlen').
  cbn [fmap list_fmap call_for c_vertices c_edges]. split.
  - intros Hdiag. f_equal. simpl. apply list_fmap_ext.
    intros k i [-> Hi]%lookup_seq. simpl. apply Hdiag. lia.
  - intros Hrest. do 2 f_equal.
    rewrite !edges_of_square by done. apply list_fmap_ext.
    intros a k Hk. apply list_elem_of_lookup_2 in Hk.
    apply list_elem_of_filter in Hk as [Hne Hk].
    apply elem_of_seq in Hk as [_ Hk]. simpl in Hk.
    assert (n ≠ 0) by lia.
    pose proof (Nat.div_mod k n). pose proof (Nat.mod_upper_bound k n).
    f_equal.
    assert (Hk' : k = k / n * n + k mod n) by lia.
    rewrite Hk'.
    apply Hrest; [|lia|done].
    apply Nat.Div0.div_lt_upper_bound. lia.
Qed.

End Further.

(** ** The further properties on examples *)

Lemma result_reads_first_homology_witness :
  heap dense_2x2 !! 0 = Some (Ndarray 2 2 [7; 1; 0; 9]%Z) ∧
  well_formed (Ndarray 2 2 [7; 1; 0; 9]%Z) ∧
  (call_on dense_2x2 "max"%string).1 = inr (Out unit [] [] [] 0%Z).
Proof.
  split; [reflexivity|]. split; [reflexivity|].
  destruct (result_reads_first_homology unit idle_engine names 0 0%Z Inf true
              "max"%string 2%Z (-1)%Z dense_2x2 (Ndarray 2 2 [7; 1; 0; 9]%Z)
              eq_refl eq_refl) as (c & Hc & Hres).
  apply (Hres (Homology unit [] [] [] 0%Z) []). reflexivity.
Defined.

(** An engine that returns the empty list. *)
Lemma empty_engine_result_raises_index_error_witness :
  heap dense_2x2 !! 0 = Some (Ndarray 2 2 [7; 1; 0; 9]%Z) ∧
  well_formed (Ndarray 2 2 [7; 1; 0; 9]%Z) ∧
  (flagser unit (λ _ _ _ _ _ _ _ _, []) names 0 0%Z Inf true "max"%string
     2%Z (-1)%Z dense_2x2).1 = inl IndexError.
Proof.
  split; [reflexivity|]. split; [reflexivity|].
  destruct (empty_engine_result_raises_index_error unit
              (λ _ _ _ _ _ _ _ _, []) names 0 0%Z Inf true "max"%string 2%Z
              (-1)%Z dense_2x2 (Ndarray 2 2 [7; 1; 0; 9]%Z) eq_refl eq_refl)
    as (c & Hc & Hraise & _).
  apply Hraise. reflexivity.
Defined.

Lemma scalars_handed_unchecked_witness :
  heap dense_2x2 !! 0 = Some (Ndarray 2 2 [7; 1; 0; 9]%Z) ∧
  well_formed (Ndarray 2 2 [7; 1; 0; 9]%Z) ∧
  ∃ c, calls_made dense_2x2
         (flagser unit idle_engine names 0 (-3)%Z Inf false "max"%string
            4%Z (-1)%Z dense_2x2) = [c] ∧
       c_min_dimension c = (-3)%Z ∧ c_directed c = false ∧ c_coeff c = 4%Z.
Proof.
  split; [reflexivity|]. split; [reflexivity|].
  apply (scalars_handed_unchecked unit idle_engine names 0 (-3)%Z Inf false
           "max"%string 4%Z (-1)%Z dense_2x2 (Ndarray 2 2 [7; 1; 0; 9]%Z));
    reflexivity.
Defined.

Lemma implemented_filtration_is_silent_witness :
  ("zero"%string ∈ names) ∧
  heap dense_2x2 !! 0 = Some (Ndarray 2 2 [7; 1; 0; 9]%Z) ∧
  well_formed (Ndarray 2 2 [7; 1; 0; 9]%Z) ∧
  stdout (call_on dense_2x2 "zero"%string).2 = stdout dense_2x2 ∧
  ∃ c, calls_made dense_2x2 (call_on dense_2x2 "zero"%string) = [c] ∧
       c_filtration c = "zero"%string.
Proof.
  assert (Hin : "zero"%string ∈ names).
  { apply (bool_decide_unpack _). vm_compute. exact I. }
  split; [exact Hin|]. split; [reflexivity|]. split; [reflexivity|].
  apply (implemented_filtration_is_silent unit idle_engine names 0 0%Z Inf
           true "zero"%string 2%Z (-1)%Z dense_2x2
           (Ndarray 2 2 [7; 1; 0; 9]%Z));
    [exact Hin|reflexivity|reflexivity].
Defined.

Lemma nonzero_approximation_unchanged_witness :
  (-5)%Z ≠ 0%Z ∧
  heap dense_2x2 !! 0 = Some (Ndarray 2 2 [7; 1; 0; 9]%Z) ∧
  well_formed (Ndarray 2 2 [7; 1; 0; 9]%Z) ∧
  ∃ c, calls_made dense_2x2
         (flagser unit idle_engine names 0 0%Z Inf true "max"%string 2%Z
            (-5)%Z dense_2x2) = [c] ∧
       c_approximation c = (-5)%Z.
Proof.
  split; [lia|]. split; [reflexivity|]. split; [reflexivity|].
  apply (nonzero_approximation_unchanged unit idle_engine names 0 0%Z Inf
           true "max"%string 2%Z (-5)%Z dense_2x2
           (Ndarray 2 2 [7; 1; 0; 9]%Z));
    [lia|reflexivity|reflexivity].
Defined.

(** The matrix [np.array([[7, 1, 0], [9, 8, 6]])]: the two edges are read
    from the flat positions 1 and 2, which are the cells (0, 1) and (0, 2);
    the cell (1, 0) gives no edge. *)
Lemma dense_rectangular_edges_witness :
  heap (World [Ndarray 2 3 [7; 1; 0; 9; 8; 6]%Z] [] []) !! 0 =
    Some (Ndarray 2 3 [7; 1; 0; 9; 8; 6]%Z) ∧
  length [7; 1; 0; 9; 8; 6]%Z = 2 * 3 ∧
  c_edges <$> calls_made (World [Ndarray 2 3 [7; 1; 0; 9; 8; 6]%Z] [] [])
    (call_on (World [Ndarray 2 3 [7; 1; 0; 9; 8; 6]%Z] [] []) "max"%string) =
  [Triples [(0, 1, 1%Z); (0, 2, 0%Z)]].
Proof.
  split; [reflexivity|]. split; [reflexivity|].
  destruct (dense_rectangular_edges unit idle_engine names 0 0%Z Inf true
              "max"%string 2%Z (-1)%Z
              (World [Ndarray 2 3 [7; 1; 0; 9; 8; 6]%Z] [] []) 2 3
              [7; 1; 0; 9; 8; 6]%Z eq_refl eq_refl) as (es & Hes & -> & _).
  exact Hes.
Defined.

Lemma dense_edges_in_row_major_order_witness :
  heap dense_2x2 !! 0 = Some (Ndarray 2 2 [7; 1; 0; 9]%Z) ∧
  length [7; 1; 0; 9]%Z = 2 * 2 ∧
  ∃ es, c_edges <$> calls_made dense_2x2 (call_on dense_2x2 "max"%string) =
          [Triples es] ∧
        (∀ a b e e', a < b → es !! a = Some e → es !! b = Some e' →
                     e.1.1 < e'.1.1 ∨ (e.1.1 = e'.1.1 ∧ e.1.2 < e'.1.2)) ∧
        NoDup es.*1.
Proof.
  split; [reflexivity|]. split; [reflexivity|].
  apply (dense_edges_in_row_major_order unit idle_engine names 0 0%Z Inf
           true "max"%string 2%Z (-1)%Z dense_2x2 2 [7; 1; 0; 9]%Z);
    reflexivity.
Defined.

(** The matrix [np.array([[4]])] has one vertex and no edge. *)
Lemma dense_edges_empty_iff_witness :
  heap (World [Ndarray 1 1 [4%Z]] [] []) !! 0 = Some (Ndarray 1 1 [4%Z]) ∧
  length [4%Z] = 1 * 1 ∧
  c_edges <$> calls_made (World [Ndarray 1 1 [4%Z]] [] [])
    (call_on (World [Ndarray 1 1 [4%Z]] [] []) "max"%string) =
  [Triples []].
Proof.
  split; [reflexivity|]. split; [reflexivity|].
  apply (dense_edges_empty_iff unit idle_engine names 0 0%Z Inf true
           "max"%string 2%Z (-1)%Z (World [Ndarray 1 1 [4%Z]] [] []) 1 [4%Z]
           eq_refl eq_refl).
  lia.
Defined.

(** The matrix [coo_matrix((3, 3))], with nothing stored. *)
Lemma sparse_edges_empty_iff_witness :
  heap (World [SpMatrix 3 3 ([] : list (nat * nat * Z))] [] []) !! 0 =
    Some (SpMatrix 3 3 []) ∧
  c_edges <$> calls_made (World [SpMatrix 3 3 []] [] [])
    (call_on (World [SpMatrix 3 3 ([] : list (nat * nat * Z))] [] [])
       "max"%string) = [Triples []] ∧
  c_vertices <$> calls_made (World [SpMatrix 3 3 []] [] [])
    (call_on (World [SpMatrix 3 3 ([] : list (nat * nat * Z))] [] [])
       "max"%string) = [[0; 0; 0]%Z].
Proof.
  split; [reflexivity|].
  destruct (sparse_edges_empty_iff unit idle_engine names 0 0%Z Inf true
              "max"%string 2%Z (-1)%Z
              (World [SpMatrix 3 3 ([] : list (nat * nat * Z))] [] []) 3 3 []
              eq_refl) as [Hedges Hvertices].
  split.
  - apply Hedges. apply Forall_nil_2.
  - apply Hvertices. reflexivity.
Defined.

Lemma result_depends_on_matrix_only_witness :
  heap dense_2x2 !! 0 = Some (Ndarray 2 2 [7; 1; 0; 9]%Z) ∧
  heap (World [Vector [1%Z]; Ndarray 2 2 [7; 1; 0; 9]%Z] ["x"%string] [])
    !! 1 = Some (Ndarray 2 2 [7; 1; 0; 9]%Z) ∧
  well_formed (Ndarray 2 2 [7; 1; 0; 9]%Z) ∧
  (flagser unit idle_engine names 1 0%Z Inf true "max"%string 2%Z (-1)%Z
     (World [Vector [1%Z]; Ndarray 2 2 [7; 1; 0; 9]%Z] ["x"%string] [])).1 =
    (call_on dense_2x2 "max"%string).1 ∧
  (call_on (call_on dense_2x2 "max"%string).2 "max"%string).1 =
    (call_on dense_2x2 "max"%string).1.
Proof.
  split; [reflexivity|]. split; [reflexivity|]. split; [reflexivity|].
  destruct (result_depends_on_matrix_only unit idle_engine names 0%Z Inf true
              "max"%string 2%Z (-1)%Z 0 1 dense_2x2
              (World [Vector [1%Z]; Ndarray 2 2 [7; 1; 0; 9]%Z]
                 ["x"%string] [])
              (Ndarray 2 2 [7; 1; 0; 9]%Z) eq_refl eq_refl eq_refl)
    as [[Hother _] [Hagain _]].
  split; [exact Hother|exact Hagain].
Defined.

(** The array [np.array([1, 2, 3])]. *)
Lemma one_dimensional_array_raises_witness :
  heap (World [Vector [1; 2; 3]%Z] [] []) !! 0 = Some (Vector [1; 2; 3]%Z) ∧
  call_on (World [Vector [1; 2; 3]%Z] [] []) "max"%string =
    (inl ValueError, World [Vector [1; 2; 3]%Z] [] []).
Proof.
  split; [reflexivity|].
  apply (one_dimensional_array_raises unit idle_engine names 0 0%Z Inf true
           "max"%string 2%Z (-1)%Z (World [Vector [1; 2; 3]%Z] [] [])
           (Vector [1; 2; 3]%Z) eq_refl).
  left. exists [1; 2; 3]%Z. reflexivity.
Defined.

(** The matrix that stores 5 and then 6 at (0, 1) gives two edges from 0
    to 1. *)
Lemma sparse_duplicates_stay_separate_witness :
  heap (World [SpMatrix 2 2 [(0, 1, 5%Z); (1, 1, 3%Z); (0, 1, 6%Z)]] [] [])
    !! 0 = Some (SpMatrix 2 2 [(0, 1, 5%Z); (1, 1, 3%Z); (0, 1, 6%Z)]) ∧
  ∃ es, c_edges <$> calls_made
          (World [SpMatrix 2 2 [(0, 1, 5%Z); (1, 1, 3%Z); (0, 1, 6%Z)]] [] [])
          (call_on
             (World [SpMatrix 2 2 [(0, 1, 5%Z); (1, 1, 3%Z); (0, 1, 6%Z)]]
                [] []) "max"%string) = [Triples es] ∧
        stored_at es 0 1 = [5; 6]%Z.
Proof.
  split; [reflexivity|].
  destruct (sparse_duplicates_stay_separate unit idle_engine names 0 0%Z Inf
              true "max"%string 2%Z (-1)%Z
              (World [SpMatrix 2 2 [(0, 1, 5%Z); (1, 1, 3%Z); (0, 1, 6%Z)]]
                 [] []) 2 2 _ eq_refl) as (es & Hes & Hdup & _).
  exists es. split; [exact Hes|]. rewrite (Hdup 0 1) by lia. reflexivity.
Defined.

(** [[7, 1], [0, 9]] and [[7, 5], [6, 9]] have one diagonal;
    [[7, 1], [0, 9]] and [[2, 1], [0, 3]] agree off it. *)
Lemma dense_diagonal_and_rest_are_separate_witness :
  heap dense_2x2 !! 0 = Some (Ndarray 2 2 [7; 1; 0; 9]%Z) ∧
  heap (World [Ndarray 2 2 [7; 5; 6; 9]%Z] [] []) !! 0 =
    Some (Ndarray 2 2 [7; 5; 6; 9]%Z) ∧
  heap (World [Ndarray 2 2 [2; 1; 0; 3]%Z] [] []) !! 0 =
    Some (Ndarray 2 2 [2; 1; 0; 3]%Z) ∧
  c_vertices <$> calls_made dense_2x2 (call_on dense_2x2 "max"%string) =
  c_vertices <$> calls_made (World [Ndarray 2 2 [7; 5; 6; 9]%Z] [] [])
    (call_on (World [Ndarray 2 2 [7; 5; 6; 9]%Z] [] []) "max"%string) ∧
  c_edges <$> calls_made dense_2x2 (call_on dense_2x2 "max"%string) =
  c_edges <$> calls_made (World [Ndarray 2 2 [2; 1; 0; 3]%Z] [] [])
    (call_on (World [Ndarray 2 2 [2; 1; 0; 3]%Z] [] []) "max"%string).
Proof.
  split; [reflexivity|]. split; [reflexivity|]. split; [reflexivity|].
  split.
  - apply (proj1 (dense_diagonal_and_rest_are_separate unit idle_engine names
                    0%Z Inf true "max"%string 2%Z (-1)%Z 0 0 dense_2x2
                    (World [Ndarray 2 2 [7; 5; 6; 9]%Z] [] []) 2
                    [7; 1; 0; 9]%Z [7; 5; 6; 9]%Z eq_refl eq_refl eq_refl
                    eq_refl)).
    intros i Hi. destruct i as [|[|i]]; [reflexivity|reflexivity|lia].
  - apply (proj2 (dense_diagonal_and_rest_are_separate unit idle_engine names
                    0%Z Inf true "max"%string 2%Z (-1)%Z 0 0 dense_2x2
                    (World [Ndarray 2 2 [2; 1; 0; 3]%Z] [] []) 2
                    [7; 1; 0; 9]%Z [2; 1; 0; 3]%Z eq_refl eq_refl eq_refl
                    eq_refl)).
    intros i j Hi Hj Hij.
    destruct i as [|[|i]], j as [|[|j]]; try lia; reflexivity.
Defined.
